(** * Shape inference of the reshape operator

    A shallow embedding of [paddle/fluid/operators/reshape_op.cc]:
    [ReshapeOp::ValidateShape], [ReshapeOp::InferShape] and
    [ReshapeGradOp::InferShape], followed by the properties of the shape
    resolver that the specification states about them. *)

From Stdlib Require Import ZArith Lia List.
From stdpp Require Import gmap strings list fin_maps.

Local Open Scope Z_scope.

(** ** Machine integers

    [int] is a 32-bit and [int64_t] a 64-bit two's complement integer.  Values
    are kept in [Z]; every operation that can leave the range wraps. *)

Definition wrap (w : Z) (z : Z) : Z := (z + 2 ^ (w - 1)) mod 2 ^ w - 2 ^ (w - 1).

Definition wrap32 : Z -> Z := wrap 32.
Definition wrap64 : Z -> Z := wrap 64.

Definition INT_MAX : Z := 2 ^ 31 - 1.
Definition INT_MIN : Z := - 2 ^ 31.
Definition INT64_MAX : Z := 2 ^ 63 - 1.
Definition INT64_MIN : Z := - 2 ^ 63.

Definition in_int (z : Z) : Prop := INT_MIN <= z <= INT_MAX.
Definition in_int64 (z : Z) : Prop := INT64_MIN <= z <= INT64_MAX.

(** [std::multiplies<int>] *)
Definition mul32 (a b : Z) : Z := wrap32 (a * b).

(** [int64_t * int64_t] and unary minus on [int64_t] *)
Definition mul64 (a b : Z) : Z := wrap64 (a * b).
Definition neg64 (a : Z) : Z := wrap64 (- a).

(** [static_cast<int64_t>(int)]: sign extension, the value is unchanged. *)
Definition int_to_int64 (a : Z) : Z := a.

(** ** Outcomes

    A [PADDLE_ENFORCE*] that does not hold throws; the constructors are the
    enforce sites of the file, under the names the specification gives them. *)

Inductive EnforceNotMet : Set :=
  | NullInputError          (* "Input(X) ... should not be null." *)
  | NullOutputError         (* "Output(Out) of ReshapeOp should not be null." *)
  | EmptySpecError          (* "The shape information must be set by Attr(shape)." *)
  | InvalidDimensionError   (* "Each input dimension of Attr(shape) must be positive, or
                               only one input dimension can be -1." *)
  | IndexOutOfRangeError    (* "Only dimension less than rank of Input(X) can be set to 0." *)
  | MultipleInferredDimsError (* "Only one input dimension of Attr(shape) can be unknown." *)
  | ShapeMismatchError.     (* "Invalid shape is given." *)

(** A call returns, throws, or executes an integer division whose result is
    not defined (a zero divisor, or [INT64_MIN / -1]). *)
Inductive result (A : Type) : Type :=
  | Ok (a : A)
  | Throw (e : EnforceNotMet)
  | DivisionTrap.

Arguments Ok {A} a.
Arguments Throw {A} e.
Arguments DivisionTrap {A}.

#[global] Instance result_ret : MRet result := fun A a => Ok a.
#[global] Instance result_bind : MBind result := fun A B f m =>
  match m with
  | Ok a => f a
  | Throw e => Throw e
  | DivisionTrap => DivisionTrap
  end.
#[global] Instance result_fmap : FMap result := fun A B f m =>
  match m with
  | Ok a => Ok (f a)
  | Throw e => Throw e
  | DivisionTrap => DivisionTrap
  end.

(** [PADDLE_ENFORCE(cond, msg)] *)
Definition PADDLE_ENFORCE (cond : bool) (e : EnforceNotMet) : result unit :=
  if cond then Ok tt else Throw e.

(** [int64_t / int64_t]: truncation towards zero where it is defined. *)
Definition div64 (a b : Z) : result Z :=
  if b =? 0 then DivisionTrap
  else if (a =? INT64_MIN) && (b =? -1) then DivisionTrap
  else Ok (Z.quot a b).

(** ** Shapes *)

(** [framework::DDim]: the extents of a tensor, each an [int64_t]. *)
Definition DDim : Type := list Z.

(** Modelled from the spec: [framework::product] is declared in [ddim.h], which
    is not among the sources.  "product of all elements = total element
    count", computed in [int64_t]. *)
Definition product (d : DDim) : Z := fold_left mul64 d 1.

(** Modelled from the spec: [framework::make_ddim] is declared in [ddim.h],
    which is not among the sources; it builds the shape whose extents are the
    elements of the vector. *)
Definition make_ddim (v : list Z) : DDim := v.

(** [std::accumulate(first, last, 1, std::multiplies<int>())]: the accumulator
    has the type of the initial value, [int]. *)
Definition accumulate (v : list Z) (init : Z) : Z := fold_left mul32 v init.

(** [v.resize(n, x)] *)
Definition resize (n : nat) (x : Z) (v : list Z) : list Z :=
  take n v ++ replicate (n - length v) x.

(** [std::transform(src.begin(), src.end(), dst.begin(), f)] overwrites the
    first [length src] slots of [dst]; it is only called on a [dst] that is
    long enough. *)
Fixpoint transform (f : Z -> Z) (src dst : list Z) : list Z :=
  match src, dst with
  | [], _ => dst
  | a :: src', _ :: dst' => f a :: transform f src' dst'
  | _ :: _, [] => []
  end.

(** ** [ReshapeOp::ValidateShape] *)

Definition unknown_index : Z := -1.

(** The two locals the [for] loop updates. *)
Record scan_state : Type := {
  need_dim_copy : bool;
  neg_dims_idx : list nat
}.

Definition scan_init : scan_state :=
  {| need_dim_copy := false; neg_dims_idx := [] |}.

(** One iteration of the loop at index [i], where [shape[i] = d]. *)
Definition loop_body (x_rank i : nat) (d : Z) (st : scan_state) : result scan_state :=
  _ ← PADDLE_ENFORCE ((0 <=? d) || (d =? unknown_index)) InvalidDimensionError;
  if d =? unknown_index then
    Ok {| need_dim_copy := need_dim_copy st; neg_dims_idx := neg_dims_idx st ++ [i] |}
  else if d =? 0 then
    _ ← PADDLE_ENFORCE (bool_decide (i < x_rank)%nat) IndexOutOfRangeError;
    Ok {| need_dim_copy := true; neg_dims_idx := neg_dims_idx st |}
  else Ok st.

(** [for (size_t i = ...; i < shape.size(); ++i)], entered at index [i] with
    [rest] the entries from [i] on. *)
Fixpoint for_loop (x_rank i : nat) (rest : list Z) (st : scan_state) : result scan_state :=
  match rest with
  | [] => Ok st
  | d :: rest' => st' ← loop_body x_rank i d st; for_loop x_rank (S i) rest' st'
  end.

(** The validation part of the function: the loop and the enforce on the
    number of [-1] entries that follows it. *)
Definition validate (shape : list Z) (x_rank : nat) : result scan_state :=
  st ← for_loop x_rank 0 shape scan_init;
  _ ← PADDLE_ENFORCE (bool_decide (length (neg_dims_idx st) ≤ 1)%nat)
        MultipleInferredDimsError;
  Ok st.

(** The inference of the [-1] extent, lines 94 to 103: entered only when no
    dimension has to be copied. *)
Definition infer (shape : list Z) (in_size : Z) (idx : list nat)
    (output_shape : list Z) : result (bool * list Z) :=
  match idx with
  | [] => Ok (false, output_shape)
  | k :: _ =>
      let capacity := int_to_int64 (accumulate shape 1) in
      inferred_dim ← div64 in_size (neg64 capacity);
      _ ← PADDLE_ENFORCE (mul64 inferred_dim (neg64 capacity) =? in_size)
            ShapeMismatchError;
      Ok (false, <[k := inferred_dim]> output_shape)
  end.

(** The returned pair is the [bool] result and the final content of the
    [output_shape] reference parameter. *)
Definition ValidateShape (shape : list Z) (input_dim : DDim)
    (output_shape : list Z) : result (bool * list Z) :=
  let in_size := product input_dim in
  let x_rank := length input_dim in
  st ← validate shape x_rank;
  let output_shape := resize (length shape) 0 output_shape in
  let output_shape := transform int_to_int64 shape output_shape in
  if need_dim_copy st then Ok (need_dim_copy st, output_shape)
  else infer shape in_size (neg_dims_idx st) output_shape.

(** ** The shape-inference context

    Modelled from the spec: [framework::InferShapeContext] is an interface of
    the framework and is not among the sources.  The hook receives "one named
    input shape, one attribute holding the integer sequence" and yields "one
    named output shape plus propagated auxiliary metadata"; the metadata is
    "an opaque descriptor handle" copied "from input entity to output
    entity". *)

(** Modelled from the spec: the "LoD"-style auxiliary descriptor, opaque to
    the operator. *)
Definition LoD : Type := list (list nat).

(** Modelled from the spec: what the context knows of a variable, its extents
    and its auxiliary descriptor. *)
Record VarInfo : Type := {
  dims : DDim;
  lod : LoD
}.

(** Modelled from the spec: the named inputs, the named outputs and the
    [shape] attribute. *)
Record InferShapeContext : Type := {
  Inputs : gmap string VarInfo;
  Outputs : gmap string VarInfo;
  Attr_shape : list Z          (* [Attrs().Get<std::vector<int>>("shape")] *)
}.

(** Modelled from the spec: [InferShapeContext::HasInput], whether the named
    input was forwarded. *)
Definition HasInput (ctx : InferShapeContext) (name : string) : bool :=
  bool_decide (is_Some (Inputs ctx !! name)).

(** Modelled from the spec: [InferShapeContext::HasOutput]. *)
Definition HasOutput (ctx : InferShapeContext) (name : string) : bool :=
  bool_decide (is_Some (Outputs ctx !! name)).

(** Modelled from the spec: [InferShapeContext::GetInputDim], the "named input
    shape"; only called after [HasInput] was enforced. *)
Definition GetInputDim (ctx : InferShapeContext) (name : string) : DDim :=
  default [] (dims <$> Inputs ctx !! name).

(** Modelled from the spec: the "named output shape" read back. *)
Definition GetOutputDim (ctx : InferShapeContext) (name : string) : option DDim :=
  dims <$> Outputs ctx !! name.

(** Modelled from the spec: the auxiliary descriptor attached to an input. *)
Definition GetInputLoD (ctx : InferShapeContext) (name : string) : option LoD :=
  lod <$> Inputs ctx !! name.

(** Modelled from the spec: the auxiliary descriptor attached to an output. *)
Definition GetOutputLoD (ctx : InferShapeContext) (name : string) : option LoD :=
  lod <$> Outputs ctx !! name.

Definition with_outputs (ctx : InferShapeContext) (outs : gmap string VarInfo)
    : InferShapeContext :=
  {| Inputs := Inputs ctx; Outputs := outs; Attr_shape := Attr_shape ctx |}.

(** Modelled from the spec: [InferShapeContext::SetOutputDim] records [d] as
    the extents of output [name] and leaves its descriptor alone. *)
Definition SetOutputDim (name : string) (d : DDim) (ctx : InferShapeContext)
    : InferShapeContext :=
  let old := default [] (lod <$> Outputs ctx !! name) in
  with_outputs ctx (<[name := {| dims := d; lod := old |}]> (Outputs ctx)).

(** Modelled from the spec: [InferShapeContext::ShareLoD], "copying an opaque
    descriptor handle from input entity to output entity, without inspecting
    its contents"; the extents of the output are left alone. *)
Definition ShareLoD (i o : string) (ctx : InferShapeContext) : InferShapeContext :=
  match Inputs ctx !! i with
  | Some x =>
      let old := default [] (dims <$> Outputs ctx !! o) in
      with_outputs ctx (<[o := {| dims := old; lod := lod x |}]> (Outputs ctx))
  | None => ctx
  end.

(** Modelled from the spec: [framework::GradVarName] is not among the sources;
    the gradient of a variable is a variable of its own, named after it. *)
Definition GradVarName (name : string) : string := (name +:+ "@GRAD")%string.

(** ** [ReshapeOp::InferShape] *)

Module ReshapeOp.

Definition InferShape (ctx : InferShapeContext) : result InferShapeContext :=
  _ ← PADDLE_ENFORCE (HasInput ctx "X") NullInputError;
  _ ← PADDLE_ENFORCE (HasOutput ctx "Out") NullOutputError;
  let shape := Attr_shape ctx in
  _ ← PADDLE_ENFORCE (negb (bool_decide (shape = []))) EmptySpecError;
  let output_shape := [] in
  let x_dims := GetInputDim ctx "X" in
  '(need_copy_dim, output_shape) ← ValidateShape shape x_dims output_shape;
  let ctx :=
    if (need_copy_dim : bool) then SetOutputDim "Out" x_dims ctx
    else SetOutputDim "Out" (make_ddim output_shape) ctx in
  Ok (ShareLoD "X" "Out" ctx).

End ReshapeOp.

(** The resolver of the specification, [Resolve(shapeSpec, inputShape)], is
    the part of [ReshapeOp::InferShape] between reading the attribute and the
    return of [ValidateShape] (lines 33 to 39): the emptiness enforce, then
    [ValidateShape] on a fresh [output_shape].  The [bool] is the
    specification's [deferred]. *)
Definition Resolve (shape : list Z) (x_dims : DDim) : result (bool * list Z) :=
  _ ← PADDLE_ENFORCE (negb (bool_decide (shape = []))) EmptySpecError;
  ValidateShape shape x_dims [].

(** ** [ReshapeGradOp::InferShape] *)

Module ReshapeGradOp.

Definition InferShape (ctx : InferShapeContext) : result InferShapeContext :=
  _ ← PADDLE_ENFORCE (HasInput ctx "X") NullInputError;
  _ ← PADDLE_ENFORCE (HasInput ctx (GradVarName "Out")) NullInputError;
  Ok (SetOutputDim (GradVarName "X") (GetInputDim ctx "X") ctx).

End ReshapeGradOp.

(** ** Vocabulary of the statements *)

(** Positions, counted from [i], of the entries of [l] equal to [-1]. *)
Fixpoint unknown_positions (i : nat) (l : list Z) : list nat :=
  match l with
  | [] => []
  | d :: l' =>
      if d =? unknown_index then i :: unknown_positions (S i) l'
      else unknown_positions (S i) l'
  end.

(** Number of entries equal to [-1]. *)
Definition count_unknown (l : list Z) : nat :=
  length (filter (λ d, d = unknown_index) l).

(** An entry the loop accepts at position [i]: positive, [-1], or a [0] below
    the rank of the input. *)
Definition accepted (x_rank i : nat) (d : Z) : Prop :=
  (-1 <= d) /\ (d = 0 -> (i < x_rank)%nat).

(** A shape entry that is an extent or the [-1] marker. *)
Definition extent_or_unknown (d : Z) : Prop := 0 < d ∨ d = unknown_index.

(** The product of a list as an integer, without any wrap. *)
Definition prodZ (l : list Z) : Z := fold_right Z.mul 1 l.

(** The capacity in the words of the specification: "product of all explicit
    positive entries in ShapeSpec (treat the single [-1], if present, as
    multiplicative identity 1 for this product)". *)
Definition spec_capacity (shape : list Z) : Z :=
  prodZ (filter (λ d, 0 < d) shape).

(** The divisor of line 98, [-capacity]. *)
Definition divisor (shape : list Z) : Z :=
  neg64 (int_to_int64 (accumulate shape 1)).

(** The division of line 98 is executed when the validation phase returns
    with no dimension to copy and a [-1] recorded. *)
Definition reaches_division (shape : list Z) (x_rank : nat) : Prop :=
  ∃ st, validate shape x_rank = Ok st
        ∧ need_dim_copy st = false ∧ neg_dims_idx st ≠ [].

(** ** Contexts of the examples *)

(** A forward context for the examples of the operator's documentation. *)
Definition example_ctx (x_dims : DDim) (x_lod : LoD) (shape : list Z)
    : InferShapeContext :=
  {| Inputs := {["X" := {| dims := x_dims; lod := x_lod |}]};
     Outputs := {["Out" := {| dims := []; lod := [] |}]};
     Attr_shape := shape |}.

(** A backward context: the forward input and the gradient of the forward
    output are inputs, the gradient of the forward input is the output. *)
Definition example_grad_ctx (x_dims : DDim) (x_lod : LoD) (out_dims : DDim)
    (shape : list Z) : InferShapeContext :=
  {| Inputs := {["X" := {| dims := x_dims; lod := x_lod |};
                 GradVarName "Out" := {| dims := out_dims; lod := [] |}]};
     Outputs := ∅;
     Attr_shape := shape |}.

(** * Properties *)

(** ** The examples of the operator's documentation *)

Example scenario_A : ValidateShape [6; 8] [2; 4; 6] [] = Ok (false, [6; 8]).
Proof. reflexivity. Qed.

Example scenario_B :
  ValidateShape [2; 3; -1; 2] [2; 4; 6] [] = Ok (false, [2; 3; 4; 2]).
Proof. reflexivity. Qed.

Example scenario_C :
  ValidateShape [-1; 0; 3; 2] [2; 4; 6] [] = Ok (true, [-1; 0; 3; 2]).
Proof. reflexivity. Qed.

Example scenario_D : ValidateShape [2; 3; 2; 0] [2; 3; 4] [] = Throw IndexOutOfRangeError.
Proof. reflexivity. Qed.

Example scenario_E : ValidateShape [-1; -1] [2; 4; 6] [] = Throw MultipleInferredDimsError.
Proof. reflexivity. Qed.

Example infer_B :
  (λ ctx, GetOutputDim ctx "Out")
    <$> ReshapeOp.InferShape (example_ctx [2; 4; 6] [[0; 2]%nat] [2; 3; -1; 2])
  = Ok (Some [2; 3; 4; 2]).
Proof. vm_compute. reflexivity. Qed.

(** ** Arithmetic of the machine integers *)

Lemma wrap_small (w z : Z) :
  0 < w -> - 2 ^ (w - 1) <= z < 2 ^ (w - 1) -> wrap w z = z.
Proof.
  intros Hw Hz. unfold wrap.
  assert (2 ^ w = 2 * 2 ^ (w - 1)) as ->.
  { rewrite <- Z.pow_succ_r by lia. f_equal. lia. }
  rewrite Z.mod_small; lia.
Qed.

Lemma wrap32_small (z : Z) : in_int z -> wrap32 z = z.
Proof.
  unfold in_int, INT_MIN, INT_MAX, wrap32. intros H.
  apply wrap_small; [lia|]. change (32 - 1) with 31. lia.
Qed.

Lemma wrap64_small (z : Z) : in_int64 z -> wrap64 z = z.
Proof.
  unfold in_int64, INT64_MIN, INT64_MAX, wrap64. intros H.
  apply wrap_small; [lia|]. change (64 - 1) with 63. lia.
Qed.

(** ** The output buffer *)

Lemma transform_resize (f : Z -> Z) (src out0 : list Z) :
  transform f src (resize (length src) 0 out0) = map f src.
Proof.
  revert out0. induction src as [|a src IH]; intros out0.
  - destruct out0; reflexivity.
  - destruct out0 as [|b out0].
    + specialize (IH []). unfold resize in *. simpl in *.
      rewrite take_nil in IH. simpl in IH.
      rewrite Nat.sub_0_r in IH. rewrite IH. reflexivity.
    + specialize (IH out0). unfold resize in *. simpl. rewrite IH. reflexivity.
Qed.

Lemma map_int_to_int64 (l : list Z) : map int_to_int64 l = l.
Proof. unfold int_to_int64. apply map_id. Qed.

Lemma output_buffer (shape out0 : list Z) :
  transform int_to_int64 shape (resize (length shape) 0 out0) = shape.
Proof. rewrite transform_resize. apply map_int_to_int64. Qed.

(** ** The validation loop *)

Lemma result_bind_Ok {A B : Type} (a : A) (f : A -> result B) : (Ok a ≫= f) = f a.
Proof. reflexivity. Qed.

Lemma length_unknown_positions (l : list Z) :
  forall i, length (unknown_positions i l) = count_unknown l.
Proof.
  unfold count_unknown.
  induction l as [|d l IH]; intros i; simpl; [reflexivity|].
  rewrite filter_cons. destruct (Z.eqb_spec d unknown_index) as [->|Hne].
  - rewrite decide_True by reflexivity. simpl. f_equal. apply IH.
  - rewrite decide_False by assumption. apply IH.
Qed.

Section ValidationLoop.

Variable x_rank : nat.

Lemma loop_body_accepted (i : nat) (d : Z) (st : scan_state) :
  accepted x_rank i d ->
  loop_body x_rank i d st =
    Ok {| need_dim_copy := need_dim_copy st || bool_decide (d = 0);
          neg_dims_idx :=
            neg_dims_idx st ++ (if d =? unknown_index then [i] else []) |}.
Proof.
  intros [Hd Hz]. unfold loop_body, unknown_index.
  destruct (Z.eqb_spec d (-1)) as [->|Hne].
  - simpl. rewrite orb_false_r. reflexivity.
  - assert ((0 <=? d) = true) as -> by (apply Z.leb_le; lia). simpl.
    destruct (Z.eqb_spec d 0) as [->|Hnz].
    + rewrite bool_decide_eq_true_2 by auto. simpl.
      rewrite orb_true_r, app_nil_r. reflexivity.
    + rewrite bool_decide_eq_false_2 by auto.
      rewrite orb_false_r, app_nil_r. destruct st; reflexivity.
Qed.

Lemma loop_body_invalid (i : nat) (d : Z) (st : scan_state) :
  d < -1 -> loop_body x_rank i d st = Throw InvalidDimensionError.
Proof.
  intros Hd. unfold loop_body, unknown_index.
  assert ((0 <=? d) = false) as -> by (apply Z.leb_gt; lia).
  assert ((d =? -1) = false) as -> by (apply Z.eqb_neq; lia).
  reflexivity.
Qed.

Lemma loop_body_zero_out (i : nat) (st : scan_state) :
  (x_rank <= i)%nat -> loop_body x_rank i 0 st = Throw IndexOutOfRangeError.
Proof.
  intros Hi. unfold loop_body. simpl.
  rewrite bool_decide_eq_false_2 by lia. reflexivity.
Qed.

(** An iteration either is accepted or throws one of the two errors. *)
Lemma loop_body_cases (i : nat) (d : Z) :
  accepted x_rank i d ∨ d < -1 ∨ (d = 0 ∧ (x_rank <= i)%nat).
Proof.
  unfold accepted.
  destruct (Z_lt_dec d (-1)); [auto|].
  destruct (Z.eq_dec d 0) as [->|]; [|left; split; [lia|tauto]].
  destruct (le_lt_dec x_rank i); [auto|]. left. split; [lia|auto].
Qed.

Lemma for_loop_app (l1 l2 : list Z) :
  forall (i : nat) (st : scan_state),
    for_loop x_rank i (l1 ++ l2) st =
      (st' ← for_loop x_rank i l1 st; for_loop x_rank (i + length l1) l2 st').
Proof.
  induction l1 as [|d l1 IH]; intros i st; simpl.
  - rewrite Nat.add_0_r. reflexivity.
  - destruct (loop_body x_rank i d st) as [st'| |]; simpl; [|reflexivity..].
    rewrite IH. do 2 f_equal. lia.
Qed.

(** When every entry is accepted the loop ends normally, having recorded
    whether a [0] occurs and where the [-1] entries are. *)
Lemma for_loop_accepted (l : list Z) :
  forall (i : nat) (st : scan_state),
    (forall k d, l !! k = Some d -> accepted x_rank (i + k) d) ->
    for_loop x_rank i l st =
      Ok {| need_dim_copy := need_dim_copy st || bool_decide (0 ∈ l);
            neg_dims_idx := neg_dims_idx st ++ unknown_positions i l |}.
Proof.
  induction l as [|d l IH]; intros i st Hacc; cbn [for_loop unknown_positions].
  - rewrite bool_decide_eq_false_2 by (apply not_elem_of_nil).
    rewrite orb_false_r, app_nil_r. destruct st; reflexivity.
  - rewrite loop_body_accepted
      by (specialize (Hacc 0%nat d eq_refl); rewrite Nat.add_0_r in Hacc; exact Hacc).
    rewrite result_bind_Ok. rewrite IH.
    2:{ intros k e Hk. specialize (Hacc (S k) e Hk).
        replace (S i + k)%nat with (i + S k)%nat by lia. exact Hacc. }
    cbn [need_dim_copy neg_dims_idx]. f_equal. f_equal.
    + rewrite <- orb_assoc. f_equal.
      destruct (decide (d = 0)) as [->|Hd].
      * rewrite (bool_decide_eq_true_2 (0 = 0)) by reflexivity.
        rewrite (bool_decide_eq_true_2 (0 ∈ 0 :: l)) by (apply elem_of_cons; auto).
        reflexivity.
      * rewrite (bool_decide_eq_false_2 (d = 0)) by assumption. cbn [orb].
        apply bool_decide_ext. rewrite elem_of_cons. intuition congruence.
    + rewrite <- app_assoc. f_equal. destruct (d =? unknown_index); reflexivity.
Qed.

(** Conversely, a loop that ends normally has accepted every entry. *)
Lemma for_loop_Ok_accepted (l : list Z) :
  forall (i : nat) (st st' : scan_state),
    for_loop x_rank i l st = Ok st' ->
    forall k d, l !! k = Some d -> accepted x_rank (i + k) d.
Proof.
  induction l as [|d l IH]; intros i st st' Hrun k e Hk; [discriminate|].
  simpl in Hrun.
  destruct (loop_body_cases i d) as [Hacc|[Hinv|[-> Hout]]].
  - destruct k as [|k]; simpl in Hk.
    + injection Hk as <-. rewrite Nat.add_0_r. exact Hacc.
    + rewrite loop_body_accepted in Hrun by exact Hacc. simpl in Hrun.
      replace (i + S k)%nat with (S i + k)%nat by lia. eapply IH; eauto.
  - rewrite loop_body_invalid in Hrun by exact Hinv. discriminate.
  - rewrite loop_body_zero_out in Hrun by exact Hout. discriminate.
Qed.

(** The loop stops at the first entry it does not accept: a [0] at or beyond
    the rank throws [IndexOutOfRangeError] when nothing before it is below
    [-1]. *)
Lemma for_loop_zero_out (l : list Z) :
  forall (i k : nat) (st : scan_state),
    l !! k = Some 0 ->
    (x_rank <= i + k)%nat ->
    (forall j d, (j < k)%nat -> l !! j = Some d -> -1 <= d) ->
    for_loop x_rank i l st = Throw IndexOutOfRangeError.
Proof.
  induction l as [|d l IH]; intros i k st Hk Hout Hpre; [discriminate|].
  cbn [for_loop]. destruct k as [|k]; simpl in Hk.
  - injection Hk as ->. rewrite loop_body_zero_out by lia. reflexivity.
  - destruct (loop_body_cases i d) as [Hacc|[Hinv|[-> Hi]]].
    + rewrite loop_body_accepted by exact Hacc. rewrite result_bind_Ok.
      apply (IH (S i) k); [exact Hk|lia|].
      intros j e Hj He. apply (Hpre (S j) e); [lia|exact He].
    + specialize (Hpre 0%nat d ltac:(lia) eq_refl). lia.
    + rewrite loop_body_zero_out by exact Hi. reflexivity.
Qed.

End ValidationLoop.

(** ** The validation phase *)

Lemma validate_accepted (shape : list Z) (x_rank : nat) :
  (forall k d, shape !! k = Some d -> accepted x_rank k d) ->
  validate shape x_rank =
    if bool_decide (count_unknown shape ≤ 1)%nat
    then Ok {| need_dim_copy := bool_decide (0 ∈ shape);
               neg_dims_idx := unknown_positions 0 shape |}
    else Throw MultipleInferredDimsError.
Proof.
  intros Hacc. unfold validate.
  rewrite for_loop_accepted by exact Hacc. rewrite result_bind_Ok.
  cbn [need_dim_copy neg_dims_idx scan_init app orb].
  rewrite length_unknown_positions.
  destruct (bool_decide (count_unknown shape ≤ 1)%nat); reflexivity.
Qed.

Lemma validate_Ok_inv (shape : list Z) (x_rank : nat) (st : scan_state) :
  validate shape x_rank = Ok st ->
  (forall k d, shape !! k = Some d -> accepted x_rank k d)
  ∧ (count_unknown shape ≤ 1)%nat
  ∧ st = {| need_dim_copy := bool_decide (0 ∈ shape);
            neg_dims_idx := unknown_positions 0 shape |}.
Proof.
  intros Hv.
  assert (forall k d, shape !! k = Some d -> accepted x_rank k d) as Hacc.
  { unfold validate in Hv.
    destruct (for_loop x_rank 0 shape scan_init) as [st0| |] eqn:Hloop;
      [|discriminate..].
    intros k d Hk. apply (for_loop_Ok_accepted _ _ _ _ _ Hloop k d Hk). }
  split; [exact Hacc|].
  rewrite validate_accepted in Hv by exact Hacc.
  case_bool_decide; [|discriminate].
  split; [assumption|]. congruence.
Qed.

(** The validation phase never divides: it returns or throws. *)
Lemma validate_no_trap (shape : list Z) (x_rank : nat) :
  validate shape x_rank ≠ DivisionTrap.
Proof.
  unfold validate.
  assert (forall l i st, for_loop x_rank i l st ≠ DivisionTrap) as Hloop.
  { induction l as [|d l IH]; intros i st; cbn [for_loop]; [discriminate|].
    destruct (loop_body_cases x_rank i d) as [Hacc|[Hinv|[-> Hi]]].
    - rewrite loop_body_accepted by exact Hacc. rewrite result_bind_Ok. apply IH.
    - rewrite loop_body_invalid by exact Hinv. discriminate.
    - rewrite loop_body_zero_out by exact Hi. discriminate. }
  destruct (for_loop x_rank 0 shape scan_init) as [st| |] eqn:E.
  - rewrite result_bind_Ok. unfold PADDLE_ENFORCE.
    case_bool_decide; discriminate.
  - discriminate.
  - exfalso. exact (Hloop _ _ _ E).
Qed.

Lemma Resolve_nonempty (shape : list Z) (x_dims : DDim) :
  shape ≠ [] -> Resolve shape x_dims = ValidateShape shape x_dims [].
Proof.
  intros Hne. unfold Resolve.
  rewrite bool_decide_eq_false_2 by exact Hne. reflexivity.
Qed.

Lemma lookup_nonempty (shape : list Z) (i : nat) (d : Z) :
  shape !! i = Some d -> shape ≠ [].
Proof. intros H ->. discriminate. Qed.

(** A shape with a [0], once validated, is handed back as it is. *)
Lemma ValidateShape_deferred (shape : list Z) (x_dims : DDim) (out0 : list Z) :
  0 ∈ shape ->
  (forall k d, shape !! k = Some d -> accepted (length x_dims) k d) ->
  (count_unknown shape ≤ 1)%nat ->
  ValidateShape shape x_dims out0 = Ok (true, shape).
Proof.
  intros Hz Hacc Hcnt. unfold ValidateShape.
  rewrite validate_accepted by exact Hacc.
  rewrite bool_decide_eq_true_2 by exact Hcnt. rewrite result_bind_Ok.
  cbn [need_dim_copy]. rewrite bool_decide_eq_true_2 by exact Hz.
  rewrite output_buffer. reflexivity.
Qed.

(** ** Products *)

Lemma wrap_range (w z : Z) : 0 < w -> - 2 ^ (w - 1) <= wrap w z < 2 ^ (w - 1).
Proof.
  intros Hw. unfold wrap.
  assert (2 ^ w = 2 * 2 ^ (w - 1)) as Hpow.
  { rewrite <- Z.pow_succ_r by lia. f_equal. lia. }
  assert (0 < 2 ^ (w - 1)) by (apply Z.pow_pos_nonneg; lia).
  pose proof (Z.mod_pos_bound (z + 2 ^ (w - 1)) (2 ^ w)). lia.
Qed.

Lemma wrap64_in_int64 (z : Z) : in_int64 (wrap64 z).
Proof.
  pose proof (wrap_range 64 z ltac:(lia)) as H. change (64 - 1) with 63 in H.
  unfold in_int64, INT64_MIN, INT64_MAX, wrap64. lia.
Qed.

Lemma product_in_int64 (d : DDim) : in_int64 (product d).
Proof.
  unfold product. destruct d as [|a d] using rev_ind.
  - simpl. unfold in_int64, INT64_MIN, INT64_MAX. lia.
  - rewrite fold_left_app. simpl. apply wrap64_in_int64.
Qed.

Lemma prodZ_nonzero (l : list Z) : (forall d, d ∈ l -> d ≠ 0) -> 1 <= Z.abs (prodZ l).
Proof.
  induction l as [|a l IH]; intros Hnz; simpl; [lia|].
  assert (a ≠ 0) by (apply Hnz; left).
  assert (1 <= Z.abs (prodZ l)) by (apply IH; intros d Hd; apply Hnz; right; exact Hd).
  rewrite Z.abs_mul. nia.
Qed.

(** As long as the exact product fits an [int], the 32-bit accumulation is
    exact. *)
Lemma fold_mul32_exact (l : list Z) :
  forall a : Z,
    (forall d, d ∈ l -> d ≠ 0) ->
    Z.abs a * Z.abs (prodZ l) <= INT_MAX ->
    fold_left mul32 l a = a * prodZ l.
Proof.
  induction l as [|d l IH]; intros a Hnz Hfit; simpl; [lia|].
  assert (d ≠ 0) as Hd by (apply Hnz; left).
  assert (forall e, e ∈ l -> e ≠ 0) as Hnz' by (intros e He; apply Hnz; right; exact He).
  pose proof (prodZ_nonzero l Hnz') as Hl.
  simpl in Hfit. rewrite Z.abs_mul in Hfit.
  assert (Z.abs (a * d) * Z.abs (prodZ l) <= INT_MAX) as Hfit'.
  { rewrite Z.abs_mul. lia. }
  assert (mul32 a d = a * d) as ->.
  { unfold mul32. apply wrap32_small. unfold in_int, INT_MIN, INT_MAX in *.
    assert (Z.abs (a * d) <= 2 ^ 31 - 1) by nia. lia. }
  rewrite IH by assumption. lia.
Qed.

Lemma accumulate_exact (shape : list Z) :
  (forall d, d ∈ shape -> d ≠ 0) ->
  Z.abs (prodZ shape) <= INT_MAX ->
  accumulate shape 1 = prodZ shape.
Proof.
  intros Hnz Hfit. unfold accumulate.
  rewrite fold_mul32_exact; [lia|exact Hnz|]. simpl (Z.abs 1). lia.
Qed.

Lemma prodZ_no_unknown (l : list Z) :
  (forall d, d ∈ l -> extent_or_unknown d) ->
  count_unknown l = 0%nat ->
  prodZ l = spec_capacity l ∧ 0 < spec_capacity l.
Proof.
  unfold spec_capacity, count_unknown, extent_or_unknown, unknown_index.
  induction l as [|a l IH]; intros Hl Hcnt; simpl; [lia|].
  rewrite filter_cons in Hcnt. rewrite filter_cons.
  destruct (Hl a ltac:(left)) as [Ha| ->].
  - rewrite decide_False in Hcnt by lia. rewrite decide_True by exact Ha.
    destruct IH as [IH1 IH2]; [intros d Hd; apply Hl; right; exact Hd|exact Hcnt|].
    simpl. rewrite IH1. split; [reflexivity|nia].
  - rewrite decide_True in Hcnt by reflexivity. discriminate.
Qed.

Lemma prodZ_one_unknown (l : list Z) :
  (forall d, d ∈ l -> extent_or_unknown d) ->
  count_unknown l = 1%nat ->
  prodZ l = - spec_capacity l ∧ 0 < spec_capacity l.
Proof.
  induction l as [|a l IH]; intros Hl Hcnt; [discriminate|].
  assert (forall d, d ∈ l -> extent_or_unknown d) as Hl'
    by (intros d Hd; apply Hl; right; exact Hd).
  unfold spec_capacity, count_unknown in *. unfold unknown_index in Hcnt.
  rewrite filter_cons in Hcnt. rewrite filter_cons.
  destruct (Hl a ltac:(left)) as [Ha|Ha]; unfold unknown_index in Ha.
  - rewrite decide_False in Hcnt by lia. rewrite decide_True by exact Ha.
    destruct (IH Hl' Hcnt) as [IH1 IH2].
    simpl. rewrite IH1. split; [lia|nia].
  - subst a. rewrite decide_True in Hcnt by reflexivity.
    rewrite decide_False by lia.
    simpl in Hcnt. injection Hcnt as Hcnt.
    destruct (prodZ_no_unknown l Hl' Hcnt) as [H1 H2].
    unfold spec_capacity in *. simpl. rewrite H1. split; [lia|exact H2].
Qed.

Lemma unknown_positions_elem (l : list Z) :
  forall i j, l !! j = Some unknown_index -> (i + j)%nat ∈ unknown_positions i l.
Proof.
  induction l as [|d l IH]; intros i j Hj; [discriminate|].
  destruct j as [|j]; simpl in Hj.
  - injection Hj as ->. simpl. rewrite Nat.add_0_r. left.
  - simpl. replace (i + S j)%nat with (S i + j)%nat by lia.
    destruct (d =? unknown_index); [right|]; apply IH; exact Hj.
Qed.

Lemma unknown_positions_single (l : list Z) (pos : nat) :
  count_unknown l = 1%nat ->
  l !! pos = Some unknown_index ->
  unknown_positions 0 l = [pos].
Proof.
  intros Hcnt Hpos.
  pose proof (length_unknown_positions l 0) as Hlen. rewrite Hcnt in Hlen.
  pose proof (unknown_positions_elem l 0 pos Hpos) as Hin. simpl in Hin.
  destruct (unknown_positions 0 l) as [|k [|? ?]]; try discriminate.
  apply list_elem_of_singleton in Hin. congruence.
Qed.

(** ** The inference of the [-1] extent *)

Lemma divisor_in_range (shape : list Z) :
  (forall d, d ∈ shape -> extent_or_unknown d) ->
  count_unknown shape = 1%nat ->
  spec_capacity shape <= INT_MAX ->
  divisor shape = spec_capacity shape ∧ 0 < divisor shape.
Proof.
  intros Hl Hcnt Hfit.
  destruct (prodZ_one_unknown shape Hl Hcnt) as [Hprod Hpos].
  assert (divisor shape = spec_capacity shape) as Heq.
  { unfold divisor, int_to_int64, neg64. rewrite accumulate_exact.
    - rewrite Hprod, Z.opp_involutive. apply wrap64_small.
      unfold in_int64, INT64_MIN, INT64_MAX, INT_MAX in *. lia.
    - intros d Hd. destruct (Hl d Hd) as [?|?]; unfold unknown_index in *; lia.
    - rewrite Hprod, Z.abs_opp, Z.abs_eq by lia. exact Hfit. }
  split; [exact Heq|]. rewrite Heq. exact Hpos.
Qed.

Lemma infer_in_range (shape : list Z) (in_size : Z) (pos : nat) (idx : list nat)
    (out : list Z) :
  in_int64 in_size ->
  (forall d, d ∈ shape -> extent_or_unknown d) ->
  count_unknown shape = 1%nat ->
  spec_capacity shape <= INT_MAX ->
  infer shape in_size (pos :: idx) out =
    if Z.rem in_size (spec_capacity shape) =? 0
    then Ok (false, <[pos := Z.quot in_size (spec_capacity shape)]> out)
    else Throw ShapeMismatchError.
Proof.
  intros Hin Hl Hcnt Hfit.
  destruct (divisor_in_range shape Hl Hcnt Hfit) as [Hdiv Hpos].
  unfold infer. fold (divisor shape). rewrite Hdiv in *.
  set (cap := spec_capacity shape) in *.
  unfold div64.
  assert ((cap =? 0) = false) as -> by (apply Z.eqb_neq; lia).
  assert ((cap =? -1) = false) as -> by (apply Z.eqb_neq; lia).
  rewrite andb_false_r, result_bind_Ok.
  assert (mul64 (in_size ÷ cap) cap = cap * (in_size ÷ cap)) as ->.
  { unfold mul64. rewrite Z.mul_comm. apply wrap64_small.
    unfold in_int64, INT64_MIN, INT64_MAX in *.
    destruct (Z_le_gt_dec 0 in_size).
    - pose proof (Z.mul_quot_le in_size cap ltac:(lia) ltac:(lia)). lia.
    - pose proof (Z.mul_quot_ge in_size cap ltac:(lia) ltac:(lia)). lia. }
  pose proof (Z.quot_rem' in_size cap) as Hqr.
  destruct (Z.eqb_spec (Z.rem in_size cap) 0) as [Hz|Hnz].
  - assert ((cap * (in_size ÷ cap) =? in_size) = true) as ->
      by (apply Z.eqb_eq; lia).
    reflexivity.
  - assert ((cap * (in_size ÷ cap) =? in_size) = false) as ->
      by (apply Z.eqb_neq; lia).
    reflexivity.
Qed.

Lemma extent_or_unknown_accepted (shape : list Z) (x_rank : nat) :
  (forall d, d ∈ shape -> extent_or_unknown d) ->
  (forall k d, shape !! k = Some d -> accepted x_rank k d) ∧ 0 ∉ shape.
Proof.
  intros Hl. split.
  - intros k d Hk. apply list_elem_of_lookup_2 in Hk.
    destruct (Hl d Hk) as [?|?]; unfold accepted, unknown_index in *; lia.
  - intros H0. destruct (Hl 0 H0) as [?|?]; unfold unknown_index in *; lia.
Qed.

(** X10.  With exactly one [-1] among positive extents whose product fits an
    [int], the resolver divides the element count by that product: it throws
    [ShapeMismatchError] when the division leaves a remainder and otherwise
    returns the shape with the quotient in place of the [-1]. *)
Lemma Resolve_infers_in_range (shape : list Z) (x_dims : DDim) (pos : nat) :
  (forall d, d ∈ shape -> extent_or_unknown d) ->
  count_unknown shape = 1%nat ->
  shape !! pos = Some unknown_index ->
  spec_capacity shape <= INT_MAX ->
  Resolve shape x_dims =
    if Z.rem (product x_dims) (spec_capacity shape) =? 0
    then Ok (false, <[pos := Z.quot (product x_dims) (spec_capacity shape)]> shape)
    else Throw ShapeMismatchError.
Proof.
  intros Hl Hcnt Hpos Hfit.
  rewrite Resolve_nonempty by (eapply lookup_nonempty; exact Hpos).
  destruct (extent_or_unknown_accepted shape (length x_dims) Hl) as [Hacc Hz].
  unfold ValidateShape. rewrite validate_accepted by exact Hacc.
  rewrite bool_decide_eq_true_2 by lia. rewrite result_bind_Ok.
  cbn [need_dim_copy neg_dims_idx].
  rewrite bool_decide_eq_false_2 by exact Hz.
  rewrite output_buffer, (unknown_positions_single shape pos Hcnt Hpos).
  apply infer_in_range; auto using product_in_int64.
Qed.

(** A shape of positive extents only is handed back as it is; nothing is
    compared with the element count of the input. *)
Lemma Resolve_explicit_verbatim (shape : list Z) (x_dims : DDim) :
  shape ≠ [] ->
  (forall d, d ∈ shape -> 0 < d) ->
  Resolve shape x_dims = Ok (false, shape).
Proof.
  intros Hne Hl. rewrite Resolve_nonempty by exact Hne.
  assert (forall d, d ∈ shape -> extent_or_unknown d) as Hl'
    by (intros d Hd; left; apply Hl; exact Hd).
  destruct (extent_or_unknown_accepted shape (length x_dims) Hl') as [Hacc Hz].
  assert (count_unknown shape = 0%nat) as Hcnt.
  { unfold count_unknown. clear -Hl.
    induction shape as [|a l IH]; [reflexivity|].
    rewrite filter_cons. specialize (Hl a ltac:(left)) as Ha.
    rewrite decide_False by (unfold unknown_index; lia).
    apply IH. intros d Hd. apply Hl. right. exact Hd. }
  unfold ValidateShape. rewrite validate_accepted by exact Hacc.
  rewrite bool_decide_eq_true_2 by lia. rewrite result_bind_Ok.
  cbn [need_dim_copy neg_dims_idx].
  rewrite bool_decide_eq_false_2 by exact Hz.
  rewrite output_buffer.
  pose proof (length_unknown_positions shape 0) as Hlen. rewrite Hcnt in Hlen.
  destruct (unknown_positions 0 shape); [reflexivity|discriminate].
Qed.

(** ** What [ValidateShape] returns *)

Lemma infer_Ok_false (shape : list Z) (in_size : Z) (idx : list nat)
    (out0 : list Z) (b : bool) (out : list Z) :
  infer shape in_size idx out0 = Ok (b, out) -> b = false.
Proof.
  unfold infer. destruct idx as [|k idx]; [congruence|].
  destruct (div64 _ _) as [q| |]; [|discriminate..].
  rewrite result_bind_Ok. unfold PADDLE_ENFORCE.
  destruct (_ =? _); [|discriminate]. rewrite result_bind_Ok. congruence.
Qed.

Lemma ValidateShape_Ok_inv (shape : list Z) (x_dims : DDim) (out0 : list Z)
    (b : bool) (out : list Z) :
  ValidateShape shape x_dims out0 = Ok (b, out) ->
  b = bool_decide (0 ∈ shape) ∧ (b = true -> out = shape).
Proof.
  unfold ValidateShape. intros Hrun.
  destruct (validate shape (length x_dims)) as [st| |] eqn:Hv; [|discriminate..].
  rewrite result_bind_Ok in Hrun.
  destruct (validate_Ok_inv _ _ _ Hv) as (_ & _ & ->).
  cbn [need_dim_copy neg_dims_idx] in Hrun. rewrite output_buffer in Hrun.
  destruct (bool_decide (0 ∈ shape)).
  - injection Hrun as <- <-. auto.
  - apply infer_Ok_false in Hrun. subst b. split; [reflexivity|discriminate].
Qed.

(** ** The context *)

Lemma GetOutputDim_SetOutputDim (name : string) (d : DDim) (ctx : InferShapeContext) :
  GetOutputDim (SetOutputDim name d ctx) name = Some d.
Proof.
  unfold GetOutputDim, SetOutputDim, with_outputs. cbn [Outputs].
  rewrite lookup_insert_eq. reflexivity.
Qed.

Lemma GetOutputDim_ShareLoD (i o : string) (d : DDim) (ctx : InferShapeContext) :
  GetOutputDim ctx o = Some d -> GetOutputDim (ShareLoD i o ctx) o = Some d.
Proof.
  unfold GetOutputDim, ShareLoD. intros Hd.
  destruct (Inputs ctx !! i) as [x|]; [|exact Hd].
  cbn [with_outputs Outputs]. rewrite lookup_insert_eq. rewrite Hd. reflexivity.
Qed.

Lemma GetOutputLoD_ShareLoD (i o : string) (x : VarInfo) (ctx : InferShapeContext) :
  Inputs ctx !! i = Some x -> GetOutputLoD (ShareLoD i o ctx) o = Some (lod x).
Proof.
  unfold GetOutputLoD, ShareLoD. intros ->.
  cbn [with_outputs Outputs]. rewrite lookup_insert_eq. reflexivity.
Qed.

Lemma HasInput_true (ctx : InferShapeContext) (name : string) :
  is_Some (Inputs ctx !! name) -> HasInput ctx name = true.
Proof. intros H. unfold HasInput. apply bool_decide_eq_true_2. exact H. Qed.

Lemma HasInput_false (ctx : InferShapeContext) (name : string) :
  Inputs ctx !! name = None -> HasInput ctx name = false.
Proof.
  intros H. unfold HasInput. apply bool_decide_eq_false_2.
  rewrite H. intros [? ?]. discriminate.
Qed.

Lemma HasOutput_true (ctx : InferShapeContext) (name : string) :
  is_Some (Outputs ctx !! name) -> HasOutput ctx name = true.
Proof. intros H. unfold HasOutput. apply bool_decide_eq_true_2. exact H. Qed.

(** ** What [ReshapeOp::InferShape] does with the resolved shape *)

Lemma InferShape_resolved (ctx : InferShapeContext) (b : bool) (out : list Z) :
  is_Some (Inputs ctx !! "X") ->
  is_Some (Outputs ctx !! "Out") ->
  Resolve (Attr_shape ctx) (GetInputDim ctx "X") = Ok (b, out) ->
  ReshapeOp.InferShape ctx =
    Ok (ShareLoD "X" "Out"
          (SetOutputDim "Out"
             (if b then GetInputDim ctx "X" else make_ddim out) ctx)).
Proof.
  intros HX HOut Hres. unfold ReshapeOp.InferShape.
  rewrite (HasInput_true _ _ HX), (HasOutput_true _ _ HOut).
  cbn [PADDLE_ENFORCE]. rewrite !result_bind_Ok.
  unfold Resolve in Hres.
  destruct (PADDLE_ENFORCE (negb (bool_decide (Attr_shape ctx = []))) EmptySpecError)
    as [[]| |]; [|discriminate..].
  rewrite result_bind_Ok in Hres. rewrite result_bind_Ok, Hres, result_bind_Ok.
  destruct b; reflexivity.
Qed.

Lemma InferShape_Ok_inv (ctx ctx' : InferShapeContext) :
  ReshapeOp.InferShape ctx = Ok ctx' ->
  is_Some (Inputs ctx !! "X") ∧ is_Some (Outputs ctx !! "Out") ∧
  ∃ b out, Resolve (Attr_shape ctx) (GetInputDim ctx "X") = Ok (b, out).
Proof.
  unfold ReshapeOp.InferShape, Resolve. intros Hrun.
  destruct (HasInput ctx "X") eqn:HX; [|discriminate].
  destruct (HasOutput ctx "Out") eqn:HOut; [|discriminate].
  cbn [PADDLE_ENFORCE] in Hrun. rewrite !result_bind_Ok in Hrun.
  apply bool_decide_eq_true_1 in HX, HOut.
  split; [exact HX|]. split; [exact HOut|].
  destruct (PADDLE_ENFORCE (negb (bool_decide (Attr_shape ctx = []))) EmptySpecError)
    as [[]| |]; [|discriminate..].
  rewrite result_bind_Ok in Hrun. rewrite result_bind_Ok.
  destruct (ValidateShape _ _ _) as [[b out]| |]; [|discriminate..].
  exists b, out. reflexivity.
Qed.

Lemma ValidateShape_Ok_validate (shape : list Z) (x_dims : DDim) (out0 : list Z)
    (r : bool * list Z) :
  ValidateShape shape x_dims out0 = Ok r ->
  ∃ st, validate shape (length x_dims) = Ok st.
Proof.
  unfold ValidateShape. intros Hrun.
  destruct (validate shape (length x_dims)) as [st| |]; [|discriminate..].
  exists st. reflexivity.
Qed.

Lemma count_unknown_nonempty (shape : list Z) :
  (1 <= count_unknown shape)%nat -> shape ≠ [].
Proof. intros H ->. unfold count_unknown in H. simpl in H. lia. Qed.

(** ** The path to the division *)

(** On that path the shape has no [0], exactly one [-1], and positive entries
    otherwise. *)
Lemma division_path_shape (shape : list Z) (x_rank : nat) :
  reaches_division shape x_rank ->
  (0 ∉ shape)
  ∧ (forall d, d ∈ shape -> extent_or_unknown d)
  ∧ count_unknown shape = 1%nat.
Proof.
  intros (st & Hv & Hcopy & Hidx).
  destruct (validate_Ok_inv _ _ _ Hv) as (Hacc & Hcnt & ->).
  cbn [need_dim_copy neg_dims_idx] in *.
  apply bool_decide_eq_false_1 in Hcopy.
  split; [exact Hcopy|]. split.
  - intros d Hd. apply list_elem_of_lookup_1 in Hd as [k Hk].
    destruct (Hacc k d Hk) as [Hge _].
    assert (d ≠ 0) by (intros ->; apply Hcopy; eapply list_elem_of_lookup_2; eauto).
    unfold extent_or_unknown, unknown_index. lia.
  - pose proof (length_unknown_positions shape 0) as Hlen.
    destruct (unknown_positions 0 shape); [congruence|]. simpl in Hlen. lia.
Qed.

(** As long as the product of the positive entries fits an [int], the divisor
    is that product and is positive. *)
Lemma divisor_positive_in_range (shape : list Z) (x_rank : nat) :
  reaches_division shape x_rank ->
  spec_capacity shape <= INT_MAX ->
  0 < divisor shape.
Proof.
  intros Hreach Hfit.
  destruct (division_path_shape _ _ Hreach) as (_ & Hl & Hcnt).
  apply (divisor_in_range shape Hl Hcnt Hfit).
Qed.

(** * The claims *)

(** C1 (the code departs from it).  A shape of positive extents only is
    returned verbatim and no element count is compared: for the input shape
    [2, 4, 6] (48 elements) and the shape [5], the resolver returns [5] with
    [deferred = false], although 5 differs from 48; the claim demands
    [ShapeMismatchError] there. *)
Theorem explicit_shape_not_checked :
  Resolve [5] [2; 4; 6] = Ok (false, [5])
  ∧ product (make_ddim [5]) = 5
  ∧ product [2; 4; 6] = 48
  ∧ (λ ctx, GetOutputDim ctx "Out") <$> ReshapeOp.InferShape (example_ctx [2; 4; 6] [] [5])
    = Ok (Some [5]).
Proof.
  split; [reflexivity|]. split; [reflexivity|]. split; [reflexivity|].
  vm_compute. reflexivity.
Qed.

(** C2 (the code departs from it).  The capacity is accumulated in a 32-bit
    [int].  For the shape [65536, 65536, -1] and the input shape
    [65536, 65536, 2] the product of the positive entries is [2^32], it
    divides the [2^33] elements of the input exactly and the claim demands
    [65536, 65536, 2]; the accumulated capacity wraps to [0] and the resolver
    divides by zero. *)
Theorem capacity_accumulated_in_int :
  spec_capacity [65536; 65536; -1] = 2 ^ 32
  ∧ product [65536; 65536; 2] = 2 * 2 ^ 32
  ∧ accumulate [65536; 65536; -1] 1 = 0
  ∧ Resolve [65536; 65536; -1] [65536; 65536; 2] = DivisionTrap.
Proof. repeat split; reflexivity. Qed.

(** The same wrap can also let a shape through: the product of the positive
    entries of [65536, 65537, -1] does not divide 65536, yet the wrapped
    capacity does. *)
Example capacity_wraps_silently :
  Resolve [65536; 65537; -1] [65536] = Ok (false, [65536; 65537; 1])
  ∧ Z.rem (product [65536]) (spec_capacity [65536; 65537; -1]) ≠ 0.
Proof. split; [reflexivity|]. vm_compute. discriminate. Qed.

(** C3.  A shape that contains a [0], whose [0] entries all sit below the rank
    of the input, whose negative entries are all [-1] and that has at most
    one [-1], resolves without error to a copy of itself, markers included,
    with [deferred = true], whatever the extents of the input are. *)
Theorem zero_placeholder_defers (shape : list Z) (x_dims : DDim) :
  0 ∈ shape ->
  (forall i, shape !! i = Some 0 -> (i < length x_dims)%nat) ->
  (forall d, d ∈ shape -> d < 0 -> d = -1) ->
  (count_unknown shape ≤ 1)%nat ->
  Resolve shape x_dims = Ok (true, shape)
  ∧ forall out0, ValidateShape shape x_dims out0 = Ok (true, shape).
Proof.
  intros Hz Hrank Hneg Hcnt.
  assert (forall k d, shape !! k = Some d -> accepted (length x_dims) k d) as Hacc.
  { intros k d Hk. split.
    - pose proof (Hneg d (list_elem_of_lookup_2 _ _ _ Hk)). lia.
    - intros ->. apply Hrank. exact Hk. }
  assert (shape ≠ []) as Hne by (intros ->; apply elem_of_nil in Hz; exact Hz).
  rewrite Resolve_nonempty by exact Hne.
  split; [|intros out0]; apply ValidateShape_deferred; assumption.
Qed.

Lemma zero_placeholder_defers_witness :
  Resolve [-1; 0; 3; 2] [2; 4; 6] = Ok (true, [-1; 0; 3; 2])
  ∧ forall out0, ValidateShape [-1; 0; 3; 2] [2; 4; 6] out0 = Ok (true, [-1; 0; 3; 2]).
Proof.
  apply (zero_placeholder_defers [-1; 0; 3; 2] [2; 4; 6]).
  - right. left.
  - intros [|[|[|[|i]]]] Hi; simpl in *; try discriminate. lia.
  - intros d Hd Hlt. repeat (apply elem_of_cons in Hd as [->|Hd]; [lia|]).
    apply elem_of_nil in Hd. contradiction.
  - vm_compute. lia.
Defined.

(** C4 (amended).  A shape with two or more [-1] entries, in which every
    other entry is positive or a [0] below the rank of the input, fails with
    [MultipleInferredDimsError]; the failure is that of the validation phase,
    before the capacity is computed. *)
Theorem multiple_unknown_rejected (shape : list Z) (x_dims : DDim) :
  (2 <= count_unknown shape)%nat ->
  (forall k d, shape !! k = Some d -> accepted (length x_dims) k d) ->
  validate shape (length x_dims) = Throw MultipleInferredDimsError
  ∧ Resolve shape x_dims = Throw MultipleInferredDimsError.
Proof.
  intros Hcnt Hacc.
  assert (validate shape (length x_dims) = Throw MultipleInferredDimsError) as Hv.
  { rewrite validate_accepted by exact Hacc.
    rewrite bool_decide_eq_false_2 by lia. reflexivity. }
  split; [exact Hv|].
  rewrite Resolve_nonempty by (apply count_unknown_nonempty; lia).
  unfold ValidateShape. rewrite Hv. reflexivity.
Qed.

Lemma multiple_unknown_rejected_witness :
  validate [-1; -1] (length [2; 4; 6]) = Throw MultipleInferredDimsError
  ∧ Resolve [-1; -1] [2; 4; 6] = Throw MultipleInferredDimsError.
Proof.
  apply (multiple_unknown_rejected [-1; -1] [2; 4; 6]).
  - vm_compute. lia.
  - intros [|[|k]] d Hk; simpl in Hk; try discriminate;
      injection Hk as <-; unfold accepted; lia.
Defined.

(** C4, as stated, fails: with two [-1] entries followed by a [0] at position
    2 and an input of rank 2, the loop throws [IndexOutOfRangeError] before
    the [-1] entries are counted. *)
Lemma multiple_unknown_preempted :
  count_unknown [-1; -1; 0] = 2%nat
  ∧ Resolve [-1; -1; 0] [2; 3] = Throw IndexOutOfRangeError
  ∧ Resolve [-1; -1; 0] [2; 3] ≠ Throw MultipleInferredDimsError.
Proof. repeat split; [reflexivity..|discriminate]. Qed.

(** C5 (amended).  A [0] at a position [i] at or beyond the rank of the input
    makes the resolver fail with [IndexOutOfRangeError], provided no entry
    before position [i] is below [-1]; and when the resolver returns, every
    [0] sits below the rank. *)
Theorem zero_beyond_rank_rejected (shape : list Z) (x_dims : DDim) (i : nat) :
  shape !! i = Some 0 ->
  ((forall k d, (k < i)%nat -> shape !! k = Some d -> -1 <= d) ->
   (length x_dims <= i)%nat ->
   Resolve shape x_dims = Throw IndexOutOfRangeError)
  ∧ (forall r, Resolve shape x_dims = Ok r -> (i < length x_dims)%nat).
Proof.
  intros Hi.
  pose proof (lookup_nonempty _ _ _ Hi) as Hne.
  rewrite Resolve_nonempty by exact Hne. split.
  - intros Hpre Hout. unfold ValidateShape, validate.
    rewrite (for_loop_zero_out (length x_dims) shape 0 i scan_init Hi);
      [reflexivity|lia|exact Hpre].
  - intros r Hrun.
    destruct (ValidateShape_Ok_validate _ _ _ _ Hrun) as [st Hv].
    destruct (validate_Ok_inv _ _ _ Hv) as (Hacc & _ & _).
    destruct (Hacc i 0 Hi) as [_ Hlt]. apply Hlt. reflexivity.
Qed.

Lemma zero_beyond_rank_rejected_witness :
  Resolve [2; 3; 2; 0] [2; 3; 4] = Throw IndexOutOfRangeError.
Proof.
  apply (zero_beyond_rank_rejected [2; 3; 2; 0] [2; 3; 4] 3).
  - reflexivity.
  - intros [|[|[|k]]] d Hlt Hk; simpl in Hk; try lia; injection Hk as <-; lia.
  - simpl. lia.
Defined.

(** C5, as stated, fails: the shape [-2, 0] on an input of rank 1 has a [0]
    at position 1, at the rank; the [-2] before it is read first and the
    error is [InvalidDimensionError]. *)
Lemma invalid_entry_before_zero :
  [-2; 0] !! 1%nat = Some 0
  ∧ (length [6] <= 1)%nat
  ∧ Resolve [-2; 0] [6] = Throw InvalidDimensionError
  ∧ Resolve [-2; 0] [6] ≠ Throw IndexOutOfRangeError.
Proof.
  split; [reflexivity|]. split; [simpl; lia|]. split; [reflexivity|].
  vm_compute. discriminate.
Qed.

(** C6 (amended).  The entries are checked one by one, from left to right,
    each against both rules: after a prefix of accepted entries, an entry
    below [-1] fails with [InvalidDimensionError] and a [0] at or beyond the
    rank fails with [IndexOutOfRangeError], whatever comes after it. *)
Theorem first_offending_entry_decides (pre post : list Z) (d : Z) (x_dims : DDim) :
  (forall k e, pre !! k = Some e -> accepted (length x_dims) k e) ->
  (d < -1 -> Resolve (pre ++ d :: post) x_dims = Throw InvalidDimensionError)
  ∧ (d = 0 -> (length x_dims <= length pre)%nat ->
     Resolve (pre ++ d :: post) x_dims = Throw IndexOutOfRangeError).
Proof.
  intros Hpre.
  assert (pre ++ d :: post ≠ []) as Hne by (destruct pre; discriminate).
  rewrite Resolve_nonempty by exact Hne.
  unfold ValidateShape, validate.
  rewrite for_loop_app, (for_loop_accepted (length x_dims) pre 0 scan_init Hpre),
    result_bind_Ok.
  cbn [for_loop]. split.
  - intros Hd. rewrite loop_body_invalid by exact Hd. reflexivity.
  - intros -> Hout. rewrite loop_body_zero_out by (simpl; lia). reflexivity.
Qed.

Lemma first_offending_entry_decides_witness :
  Resolve ([3] ++ -2 :: [0]) [6] = Throw InvalidDimensionError
  ∧ Resolve ([3] ++ 0 :: [-2]) [6] = Throw IndexOutOfRangeError.
Proof.
  assert (forall k e, [3] !! k = Some e -> accepted (length [6]) k e) as Hpre.
  { intros [|k] e Hk; simpl in Hk; try discriminate.
    injection Hk as <-. unfold accepted. lia. }
  split.
  - apply (proj1 (first_offending_entry_decides [3] [0] (-2) [6] Hpre)). lia.
  - apply (proj2 (first_offending_entry_decides [3] [-2] 0 [6] Hpre)).
    + reflexivity.
    + simpl. lia.
Defined.

(** C6, as stated, fails: the shape [3, 0, -2] on an input of rank 1 has a
    negative entry other than [-1] and a [0] at position 1; the [0] comes
    first and the error is [IndexOutOfRangeError]. *)
Lemma index_error_before_invalid_dimension :
  [3; 0; -2] !! 2%nat = Some (-2)
  ∧ [3; 0; -2] !! 1%nat = Some 0
  ∧ (length [6] <= 1)%nat
  ∧ Resolve [3; 0; -2] [6] = Throw IndexOutOfRangeError
  ∧ Resolve [3; 0; -2] [6] ≠ Throw InvalidDimensionError.
Proof.
  split; [reflexivity|]. split; [reflexivity|]. split; [simpl; lia|].
  split; [reflexivity|]. vm_compute. discriminate.
Qed.

(** C7.  The backward routine throws when the forward input or the gradient
    of the output is missing; otherwise it returns and gives the gradient of
    the input exactly the extents of the forward input, without reading the
    shape attribute; hence, after a forward inference that succeeded on a
    context [fwd], the backward inference on a context that was handed the
    same input yields the original input shape. *)
Theorem grad_restores_input_shape (g : InferShapeContext) :
  (Inputs g !! "X" = None ∨ Inputs g !! GradVarName "Out" = None ->
   ReshapeGradOp.InferShape g = Throw NullInputError)
  ∧ (is_Some (Inputs g !! "X") -> is_Some (Inputs g !! GradVarName "Out") ->
     ∃ g', ReshapeGradOp.InferShape g = Ok g'
           ∧ GetOutputDim g' (GradVarName "X") = Some (GetInputDim g "X")
           ∧ forall fwd fwd',
               ReshapeOp.InferShape fwd = Ok fwd' ->
               Inputs g !! "X" = Inputs fwd !! "X" ->
               GetOutputDim g' (GradVarName "X") = Some (GetInputDim fwd "X")).
Proof.
  unfold ReshapeGradOp.InferShape. split.
  - intros [HX|HG].
    + rewrite (HasInput_false _ _ HX). reflexivity.
    + destruct (HasInput g "X"); [|reflexivity].
      rewrite (HasInput_false _ _ HG). reflexivity.
  - intros HX HG.
    rewrite (HasInput_true _ _ HX), (HasInput_true _ _ HG).
    eexists. split; [reflexivity|].
    split; [apply GetOutputDim_SetOutputDim|].
    intros fwd fwd' _ Hsame. rewrite GetOutputDim_SetOutputDim.
    unfold GetInputDim. rewrite Hsame. reflexivity.
Qed.

Lemma grad_restores_input_shape_witness :
  ∃ fwd' g',
    ReshapeOp.InferShape (example_ctx [2; 4; 6] [] [2; 3; -1; 2]) = Ok fwd'
    ∧ GetOutputDim fwd' "Out" = Some [2; 3; 4; 2]
    ∧ ReshapeGradOp.InferShape (example_grad_ctx [2; 4; 6] [] [2; 3; 4; 2] [2; 3; -1; 2])
      = Ok g'
    ∧ GetOutputDim g' (GradVarName "X") = Some [2; 4; 6].
Proof.
  destruct (ReshapeOp.InferShape (example_ctx [2; 4; 6] [] [2; 3; -1; 2]))
    as [fwd'| |] eqn:Hfwd; [|vm_compute in Hfwd; discriminate..].
  destruct (proj2 (grad_restores_input_shape
                     (example_grad_ctx [2; 4; 6] [] [2; 3; 4; 2] [2; 3; -1; 2])))
    as (g' & Hrun & _ & Hround).
  - eexists. vm_compute. reflexivity.
  - eexists. vm_compute. reflexivity.
  - exists fwd', g'. split; [reflexivity|]. split.
    + vm_compute in Hfwd. injection Hfwd as <-. vm_compute. reflexivity.
    + split; [exact Hrun|].
      apply (Hround (example_ctx [2; 4; 6] [] [2; 3; -1; 2]) fwd' Hfwd).
      vm_compute. reflexivity.
Defined.

(** C8.  Whenever the shape resolves, statically ([b = false]) or deferred
    ([b = true]), the inference returns and the output carries the metadata
    of the input, unchanged. *)
Theorem lod_passed_through (ctx : InferShapeContext) (x : VarInfo) (b : bool)
    (out : list Z) :
  Inputs ctx !! "X" = Some x ->
  is_Some (Outputs ctx !! "Out") ->
  Resolve (Attr_shape ctx) (GetInputDim ctx "X") = Ok (b, out) ->
  ∃ ctx', ReshapeOp.InferShape ctx = Ok ctx'
          ∧ GetOutputLoD ctx' "Out" = GetInputLoD ctx "X"
          ∧ GetInputLoD ctx "X" = Some (lod x).
Proof.
  intros HX HOut Hres.
  rewrite (InferShape_resolved ctx b out) by (rewrite ?HX; eauto).
  eexists. split; [reflexivity|].
  unfold GetInputLoD. rewrite HX. split; [|reflexivity].
  apply GetOutputLoD_ShareLoD. exact HX.
Qed.

Lemma lod_passed_through_witness :
  ∃ ctx', ReshapeOp.InferShape (example_ctx [2; 4; 6] [[0; 1; 2]%nat] [-1; 0; 3; 2])
            = Ok ctx'
          ∧ GetOutputLoD ctx' "Out"
            = GetInputLoD (example_ctx [2; 4; 6] [[0; 1; 2]%nat] [-1; 0; 3; 2]) "X"
          ∧ GetInputLoD (example_ctx [2; 4; 6] [[0; 1; 2]%nat] [-1; 0; 3; 2]) "X"
            = Some [[0; 1; 2]%nat].
Proof.
  apply (lod_passed_through (example_ctx [2; 4; 6] [[0; 1; 2]%nat] [-1; 0; 3; 2])
           {| dims := [2; 4; 6]; lod := [[0; 1; 2]%nat] |} true [-1; 0; 3; 2]).
  - vm_compute. reflexivity.
  - eexists. vm_compute. reflexivity.
  - vm_compute. reflexivity.
Defined.

(** C9.  [ValidateShape] reports that a dimension has to be copied exactly
    when the shape contains a [0]; its [output_shape] is then the shape with
    its markers, and [InferShape] does not use it: the extents of [Out] are
    set to those of [X]. *)
Theorem deferred_output_takes_input_dims (ctx : InferShapeContext) (b : bool)
    (out : list Z) :
  is_Some (Inputs ctx !! "X") ->
  is_Some (Outputs ctx !! "Out") ->
  ValidateShape (Attr_shape ctx) (GetInputDim ctx "X") [] = Ok (b, out) ->
  (b = true <-> 0 ∈ Attr_shape ctx)
  ∧ (b = true ->
     out = Attr_shape ctx
     ∧ ∃ ctx', ReshapeOp.InferShape ctx = Ok ctx'
               ∧ GetOutputDim ctx' "Out" = Some (GetInputDim ctx "X")).
Proof.
  intros HX HOut Hrun.
  destruct (ValidateShape_Ok_inv _ _ _ _ _ Hrun) as [Hb Hout]. split.
  - rewrite Hb. apply bool_decide_eq_true.
  - intros ->. split; [apply Hout; reflexivity|].
    assert (Attr_shape ctx ≠ []) as Hne.
    { symmetry in Hb. apply bool_decide_eq_true_1 in Hb.
      intros Hnil. rewrite Hnil in Hb. apply elem_of_nil in Hb. exact Hb. }
    rewrite (InferShape_resolved ctx true out HX HOut)
      by (rewrite Resolve_nonempty by exact Hne; exact Hrun).
    eexists. split; [reflexivity|].
    apply GetOutputDim_ShareLoD, GetOutputDim_SetOutputDim.
Qed.

Lemma deferred_output_takes_input_dims_witness :
  ∃ ctx', ReshapeOp.InferShape (example_ctx [2; 4; 6] [] [-1; 0; 3; 2]) = Ok ctx'
          ∧ GetOutputDim ctx' "Out" = Some [2; 4; 6].
Proof.
  refine (proj2 (proj2 (deferred_output_takes_input_dims
            (example_ctx [2; 4; 6] [] [-1; 0; 3; 2]) true [-1; 0; 3; 2] _ _ _)
          eq_refl)).
  - eexists. vm_compute. reflexivity.
  - eexists. vm_compute. reflexivity.
  - vm_compute. reflexivity.
Defined.

(** C10 (the code departs from it).  The entries on the path to the division
    are as the claim says, yet the divisor is accumulated in a 32-bit [int]
    and can wrap to [0]: the shape [65536, 65536, -1] passes the validation
    with no [0] and one [-1], the accumulated product is [0], and the
    division is by zero. *)
Theorem division_by_zero_reachable :
  reaches_division [65536; 65536; -1] (length [65536; 65536; 2])
  ∧ divisor [65536; 65536; -1] = 0
  ∧ ValidateShape [65536; 65536; -1] [65536; 65536; 2] [] = DivisionTrap.
Proof.
  split; [|split; reflexivity].
  exists {| need_dim_copy := false; neg_dims_idx := [2%nat] |}.
  split; [reflexivity|]. split; [reflexivity|discriminate].
Qed.

(** * Further properties of the operator *)

(** ** Auxiliary facts *)

(** [ValidateShape] after the validation phase: the buffer holds the shape,
    whatever it held on entry. *)
Lemma ValidateShape_unfold (shape : list Z) (x_dims : DDim) (out0 : list Z) :
  ValidateShape shape x_dims out0 =
    (st ← validate shape (length x_dims);
     if need_dim_copy st then Ok (true, shape)
     else infer shape (product x_dims) (neg_dims_idx st) shape).
Proof.
  unfold ValidateShape. rewrite output_buffer.
  destruct (validate shape (length x_dims)) as [st| |]; [|reflexivity..].
  rewrite !result_bind_Ok. destruct (need_dim_copy st); reflexivity.
Qed.

Lemma unknown_positions_lookup (l : list Z) :
  forall i k, k ∈ unknown_positions i l ->
    ∃ j, k = (i + j)%nat ∧ l !! j = Some unknown_index.
Proof.
  induction l as [|d l IH]; intros i k Hk; simpl in Hk.
  - apply elem_of_nil in Hk. contradiction.
  - destruct (Z.eqb_spec d unknown_index) as [->|Hne].
    + apply elem_of_cons in Hk as [->|Hk].
      * exists 0%nat. split; [lia|reflexivity].
      * destruct (IH _ _ Hk) as (j & -> & Hj). exists (S j). split; [lia|exact Hj].
    + destruct (IH _ _ Hk) as (j & -> & Hj). exists (S j). split; [lia|exact Hj].
Qed.

(** What a returning [infer] has done. *)
Lemma infer_Ok_inv (shape : list Z) (in_size : Z) (idx : list nat)
    (out0 : list Z) (r : bool * list Z) :
  infer shape in_size idx out0 = Ok r ->
  (idx = [] ∧ r = (false, out0))
  ∨ ∃ k idx' q, idx = k :: idx'
      ∧ div64 in_size (divisor shape) = Ok q
      ∧ mul64 q (divisor shape) = in_size
      ∧ r = (false, <[k := q]> out0).
Proof.
  unfold infer. fold (divisor shape). destruct idx as [|k idx'].
  - intros [= <-]. left. split; reflexivity.
  - intros Hrun. right. exists k, idx'.
    destruct (div64 in_size (divisor shape)) as [q| |]; [|discriminate..].
    rewrite result_bind_Ok in Hrun. unfold PADDLE_ENFORCE in Hrun.
    destruct (Z.eqb_spec (mul64 q (divisor shape)) in_size) as [Heq|];
      [|discriminate].
    rewrite result_bind_Ok in Hrun. injection Hrun as <-.
    exists q. repeat split; auto.
Qed.

Lemma div64_cases (a b : Z) : (∃ q, div64 a b = Ok q) ∨ div64 a b = DivisionTrap.
Proof.
  unfold div64. destruct (b =? 0); [right; reflexivity|].
  destruct ((a =? INT64_MIN) && (b =? -1)); [right; reflexivity|].
  left. eexists. reflexivity.
Qed.

Lemma infer_Throw_inv (shape : list Z) (in_size : Z) (idx : list nat)
    (out0 : list Z) (e : EnforceNotMet) :
  infer shape in_size idx out0 = Throw e -> e = ShapeMismatchError ∧ idx ≠ [].
Proof.
  unfold infer. intros Hrun. destruct idx as [|k idx']; [discriminate|].
  destruct (div64_cases in_size (neg64 (int_to_int64 (accumulate shape 1))))
    as [[q Hq]|Hq]; rewrite Hq in Hrun; [|discriminate].
  rewrite result_bind_Ok in Hrun. unfold PADDLE_ENFORCE in Hrun.
  destruct (_ =? _); [discriminate|]. injection Hrun as <-.
  split; [reflexivity|discriminate].
Qed.

Lemma infer_nil_no_trap (shape : list Z) (in_size : Z) (out0 : list Z) :
  infer shape in_size [] out0 = Ok (false, out0).
Proof. reflexivity. Qed.

Section ValidationErrors.

Variable x_rank : nat.

Lemma for_loop_Throw_inv (l : list Z) :
  forall (i : nat) (st : scan_state) (e : EnforceNotMet),
    for_loop x_rank i l st = Throw e ->
    e = InvalidDimensionError ∨ e = IndexOutOfRangeError.
Proof.
  induction l as [|d l IH]; intros i st e Hrun; [discriminate|].
  cbn [for_loop] in Hrun.
  destruct (loop_body_cases x_rank i d) as [Hacc|[Hinv|[-> Hout]]].
  - rewrite (loop_body_accepted x_rank) in Hrun by exact Hacc.
    rewrite result_bind_Ok in Hrun. eapply IH. exact Hrun.
  - rewrite (loop_body_invalid x_rank) in Hrun by exact Hinv.
    injection Hrun as <-. left. reflexivity.
  - rewrite (loop_body_zero_out x_rank) in Hrun by exact Hout.
    injection Hrun as <-. right. reflexivity.
Qed.

Lemma validate_Throw_inv (shape : list Z) (e : EnforceNotMet) :
  validate shape x_rank = Throw e ->
  e = InvalidDimensionError ∨ e = IndexOutOfRangeError
  ∨ e = MultipleInferredDimsError.
Proof.
  unfold validate. intros Hrun.
  destruct (for_loop x_rank 0 shape scan_init) as [st| |] eqn:Hloop.
  - rewrite result_bind_Ok in Hrun. unfold PADDLE_ENFORCE in Hrun.
    case_bool_decide; [discriminate|]. injection Hrun as <-. auto.
  - injection Hrun as <-.
    destruct (for_loop_Throw_inv _ _ _ _ Hloop); auto.
  - discriminate.
Qed.

End ValidationErrors.

(** A failure other than those of the validation phase comes from the
    division or from the enforce that follows it. *)
Lemma inference_failure_path (shape : list Z) (x_dims : DDim) (out0 : list Z) :
  ValidateShape shape x_dims out0 = DivisionTrap
  ∨ ValidateShape shape x_dims out0 = Throw ShapeMismatchError ->
  reaches_division shape (length x_dims)
  ∧ ∃ k idx, unknown_positions 0 shape = k :: idx
      ∧ ValidateShape shape x_dims out0 = infer shape (product x_dims) (k :: idx) shape.
Proof.
  rewrite ValidateShape_unfold. intros Hfail.
  destruct (validate shape (length x_dims)) as [st| |] eqn:Hv.
  - rewrite result_bind_Ok in *.
    destruct (validate_Ok_inv _ _ _ Hv) as (_ & _ & Hst).
    destruct (need_dim_copy st) eqn:Hcopy; [destruct Hfail; discriminate|].
    destruct (neg_dims_idx st) as [|k idx] eqn:Hidx;
      [destruct Hfail; discriminate|].
    split.
    + exists st. rewrite Hidx. split; [exact Hv|]. split; [exact Hcopy|discriminate].
    + exists k, idx. rewrite Hst in Hidx. cbn [neg_dims_idx] in Hidx.
      split; [exact Hidx|reflexivity].
  - destruct Hfail as [Hf|Hf]; [discriminate|]. injection Hf as ->.
    apply validate_Throw_inv in Hv. destruct Hv as [?|[?|?]]; discriminate.
  - exfalso. exact (validate_no_trap _ _ Hv).
Qed.

(** With one [-1] among positive extents whose product fits an [int], for
    any initial content of the buffer. *)
Lemma ValidateShape_infers_in_range (shape : list Z) (x_dims : DDim)
    (out0 : list Z) (pos : nat) :
  (forall d, d ∈ shape -> extent_or_unknown d) ->
  count_unknown shape = 1%nat ->
  shape !! pos = Some unknown_index ->
  spec_capacity shape <= INT_MAX ->
  ValidateShape shape x_dims out0 =
    if Z.rem (product x_dims) (spec_capacity shape) =? 0
    then Ok (false, <[pos := Z.quot (product x_dims) (spec_capacity shape)]> shape)
    else Throw ShapeMismatchError.
Proof.
  intros Hl Hcnt Hpos Hfit.
  destruct (extent_or_unknown_accepted shape (length x_dims) Hl) as [Hacc Hz].
  rewrite ValidateShape_unfold, validate_accepted by exact Hacc.
  rewrite bool_decide_eq_true_2 by lia. rewrite result_bind_Ok.
  cbn [need_dim_copy neg_dims_idx].
  rewrite bool_decide_eq_false_2 by exact Hz.
  rewrite (unknown_positions_single shape pos Hcnt Hpos).
  apply infer_in_range; auto using product_in_int64.
Qed.

Lemma count_unknown_one_lookup (shape : list Z) :
  count_unknown shape = 1%nat -> ∃ pos, shape !! pos = Some unknown_index.
Proof.
  intros Hcnt. pose proof (length_unknown_positions shape 0) as Hlen.
  rewrite Hcnt in Hlen.
  destruct (unknown_positions 0 shape) as [|k l] eqn:Hpos; [discriminate|].
  destruct (unknown_positions_lookup shape 0 k) as (j & _ & Hj).
  - rewrite Hpos. left.
  - exists j. exact Hj.
Qed.

Lemma Resolve_Ok_nonempty (shape : list Z) (x_dims : DDim) (r : bool * list Z) :
  Resolve shape x_dims = Ok r -> shape ≠ [].
Proof.
  unfold Resolve. intros Hrun ->.
  rewrite bool_decide_eq_true_2 in Hrun by reflexivity. discriminate.
Qed.

Lemma lookup_unknown_count (l : list Z) (p : nat) :
  l !! p = Some unknown_index -> (1 <= count_unknown l)%nat.
Proof.
  intros Hp. pose proof (unknown_positions_elem l 0 p Hp) as Hin.
  rewrite <- (length_unknown_positions l 0).
  destruct (unknown_positions 0 l); [apply elem_of_nil in Hin; contradiction|].
  simpl. lia.
Qed.

Lemma count_unknown_cons (d : Z) (l : list Z) :
  count_unknown (d :: l) =
    ((if decide (d = unknown_index) then 1 else 0) + count_unknown l)%nat.
Proof.
  unfold count_unknown. rewrite filter_cons.
  destruct (decide (d = unknown_index)); reflexivity.
Qed.

Lemma spec_capacity_cons (d : Z) (l : list Z) :
  spec_capacity (d :: l) =
    if decide (0 < d) then d * spec_capacity l else spec_capacity l.
Proof.
  unfold spec_capacity. rewrite filter_cons.
  destruct (decide (0 < d)); reflexivity.
Qed.

(** Putting [q] in place of the only [-1] gives a list whose product is [q]
    times the capacity. *)
Lemma prodZ_insert_unknown (l : list Z) (q : Z) :
  forall pos : nat,
    (forall d, d ∈ l -> extent_or_unknown d) ->
    count_unknown l = 1%nat ->
    l !! pos = Some unknown_index ->
    prodZ (<[pos := q]> l) = q * spec_capacity l.
Proof.
  induction l as [|d l IH]; intros pos Hl Hcnt Hpos; [discriminate|].
  assert (forall e, e ∈ l -> extent_or_unknown e) as Hl'
    by (intros e He; apply Hl; right; exact He).
  rewrite count_unknown_cons in Hcnt. rewrite spec_capacity_cons.
  destruct pos as [|pos]; simpl in Hpos.
  - injection Hpos as ->. rewrite decide_True in Hcnt by reflexivity.
    rewrite decide_False by (unfold unknown_index; lia).
    destruct (prodZ_no_unknown l Hl' ltac:(lia)) as [Hp _].
    simpl. rewrite Hp. reflexivity.
  - pose proof (lookup_unknown_count l pos Hpos) as Hone.
    destruct (decide (d = unknown_index)) as [->|Hd]; [lia|].
    destruct (Hl d ltac:(left)) as [Hpos_d|]; [|contradiction].
    rewrite decide_True by exact Hpos_d.
    simpl. rewrite (IH pos Hl' ltac:(lia) Hpos). lia.
Qed.

Lemma insert_all_positive (l : list Z) (q : Z) (pos : nat) :
  (forall d, d ∈ l -> extent_or_unknown d) ->
  count_unknown l = 1%nat ->
  l !! pos = Some unknown_index ->
  0 < q ->
  forall d, d ∈ <[pos := q]> l -> 0 < d.
Proof.
  intros Hl Hcnt Hpos Hq d Hd.
  apply list_elem_of_lookup_1 in Hd as [j Hj].
  destruct (decide (pos = j)) as [->|Hne].
  - rewrite list_lookup_insert_eq in Hj by (eapply lookup_lt_Some; eauto).
    injection Hj as <-. exact Hq.
  - rewrite list_lookup_insert_ne in Hj by exact Hne.
    destruct (Hl d (list_elem_of_lookup_2 _ _ _ Hj)) as [?|Hu]; [assumption|].
    subst d. exfalso. apply Hne.
    pose proof (unknown_positions_single l pos Hcnt Hpos) as H1.
    pose proof (unknown_positions_single l j Hcnt Hj) as H2. congruence.
Qed.

(** ** Preconditions of [ReshapeOp::InferShape] *)

(** X1.  The three enforces at the head of [ReshapeOp::InferShape] are tried
    in the order of the source: a missing input [X] is reported first, then a
    missing output [Out], and an empty [shape] attribute only when both are
    there; none of them looks at the extents of the input. *)
Theorem InferShape_enforce_order (ctx : InferShapeContext) :
  (Inputs ctx !! "X" = None -> ReshapeOp.InferShape ctx = Throw NullInputError)
  ∧ (is_Some (Inputs ctx !! "X") -> Outputs ctx !! "Out" = None ->
     ReshapeOp.InferShape ctx = Throw NullOutputError)
  ∧ (is_Some (Inputs ctx !! "X") -> is_Some (Outputs ctx !! "Out") ->
     Attr_shape ctx = [] -> ReshapeOp.InferShape ctx = Throw EmptySpecError).
Proof.
  unfold ReshapeOp.InferShape. repeat split.
  - intros HX. rewrite (HasInput_false _ _ HX). reflexivity.
  - intros HX HOut. rewrite (HasInput_true _ _ HX).
    unfold HasOutput.
    rewrite (bool_decide_eq_false_2 (is_Some (Outputs ctx !! "Out")));
      [reflexivity|].
    rewrite HOut. intros [? ?]. discriminate.
  - intros HX HOut Hnil.
    rewrite (HasInput_true _ _ HX), (HasOutput_true _ _ HOut), Hnil. reflexivity.
Qed.

Lemma InferShape_enforce_order_witness :
  ReshapeOp.InferShape
    {| Inputs := ∅; Outputs := ∅; Attr_shape := [] |} = Throw NullInputError
  ∧ ReshapeOp.InferShape
      {| Inputs := {["X" := {| dims := [2; 3]; lod := [] |}]};
         Outputs := ∅; Attr_shape := [] |} = Throw NullOutputError
  ∧ ReshapeOp.InferShape (example_ctx [2; 3] [] []) = Throw EmptySpecError.
Proof.
  split; [|split].
  - apply (proj1 (InferShape_enforce_order _)). reflexivity.
  - apply (proj1 (proj2 (InferShape_enforce_order _))).
    + eexists. vm_compute. reflexivity.
    + reflexivity.
  - apply (proj2 (proj2 (InferShape_enforce_order _))).
    + eexists. vm_compute. reflexivity.
    + eexists. vm_compute. reflexivity.
    + reflexivity.
Defined.

(** X2.  [ReshapeOp::InferShape] returns exactly when [X] and [Out] are
    there and the shape attribute resolves against the extents of [X]. *)
Theorem InferShape_returns_iff (ctx : InferShapeContext) :
  (∃ ctx', ReshapeOp.InferShape ctx = Ok ctx')
  <-> is_Some (Inputs ctx !! "X") ∧ is_Some (Outputs ctx !! "Out")
      ∧ ∃ r, Resolve (Attr_shape ctx) (GetInputDim ctx "X") = Ok r.
Proof.
  split.
  - intros [ctx' Hrun].
    destruct (InferShape_Ok_inv _ _ Hrun) as (HX & HOut & b & out & Hres).
    eauto.
  - intros (HX & HOut & [b out] & Hres).
    rewrite (InferShape_resolved ctx b out HX HOut Hres). eauto.
Qed.

(** X3.  When no dimension has to be copied, [Out] gets the resolved shape:
    the entries of the attribute, the inferred extent in place of the [-1]. *)
Theorem static_output_is_resolved_shape (ctx : InferShapeContext) (out : list Z) :
  is_Some (Inputs ctx !! "X") ->
  is_Some (Outputs ctx !! "Out") ->
  Resolve (Attr_shape ctx) (GetInputDim ctx "X") = Ok (false, out) ->
  ∃ ctx', ReshapeOp.InferShape ctx = Ok ctx'
          ∧ GetOutputDim ctx' "Out" = Some out.
Proof.
  intros HX HOut Hres.
  rewrite (InferShape_resolved ctx false out HX HOut Hres).
  eexists. split; [reflexivity|].
  apply GetOutputDim_ShareLoD, GetOutputDim_SetOutputDim.
Qed.

Lemma static_output_is_resolved_shape_witness :
  ∃ ctx', ReshapeOp.InferShape (example_ctx [2; 4; 6] [] [2; 3; -1; 2]) = Ok ctx'
          ∧ GetOutputDim ctx' "Out" = Some [2; 3; 4; 2].
Proof.
  apply (static_output_is_resolved_shape (example_ctx [2; 4; 6] [] [2; 3; -1; 2])).
  - eexists. vm_compute. reflexivity.
  - eexists. vm_compute. reflexivity.
  - vm_compute. reflexivity.
Defined.

(** X4.  [ReshapeOp::InferShape] writes [Out] and nothing else: the inputs,
    the attribute and every other output are as they were. *)
Theorem InferShape_writes_only_Out (ctx ctx' : InferShapeContext) :
  ReshapeOp.InferShape ctx = Ok ctx' ->
  Inputs ctx' = Inputs ctx
  ∧ Attr_shape ctx' = Attr_shape ctx
  ∧ forall name : string, name ≠ "Out" -> Outputs ctx' !! name = Outputs ctx !! name.
Proof.
  intros Hrun.
  destruct (InferShape_Ok_inv _ _ Hrun) as ([x HX] & HOut & b & out & Hres).
  rewrite (InferShape_resolved ctx b out) in Hrun by (rewrite ?HX; eauto).
  injection Hrun as <-.
  unfold ShareLoD, SetOutputDim, with_outputs. cbn [Inputs Outputs Attr_shape].
  rewrite HX. cbn [Inputs Outputs Attr_shape].
  split; [reflexivity|]. split; [reflexivity|].
  intros name Hne. rewrite !lookup_insert_ne by congruence. reflexivity.
Qed.

Lemma InferShape_writes_only_Out_witness :
  ∃ ctx', ReshapeOp.InferShape (example_ctx [2; 4; 6] [] [6; 8]) = Ok ctx'
          ∧ Inputs ctx' = Inputs (example_ctx [2; 4; 6] [] [6; 8])
          ∧ Attr_shape ctx' = [6; 8].
Proof.
  destruct (ReshapeOp.InferShape (example_ctx [2; 4; 6] [] [6; 8]))
    as [ctx'| |] eqn:Hrun; [|vm_compute in Hrun; discriminate..].
  exists ctx'. split; [reflexivity|].
  destruct (InferShape_writes_only_Out _ _ Hrun) as (HI & HA & _).
  split; [exact HI|exact HA].
Defined.

(** ** The output of [ReshapeOp::ValidateShape] *)

(** X5.  Whenever [ValidateShape] returns, [output_shape] has as many entries
    as the shape, and every entry of the shape other than a [-1] is there
    unchanged, [0] markers included. *)
Theorem output_shape_keeps_entries (shape : list Z) (x_dims : DDim)
    (out0 : list Z) (b : bool) (out : list Z) :
  ValidateShape shape x_dims out0 = Ok (b, out) ->
  length out = length shape
  ∧ forall k v, shape !! k = Some v -> v ≠ -1 -> out !! k = Some v.
Proof.
  rewrite ValidateShape_unfold. intros Hrun.
  destruct (validate shape (length x_dims)) as [st| |] eqn:Hv; [|discriminate..].
  rewrite result_bind_Ok in Hrun.
  destruct (validate_Ok_inv _ _ _ Hv) as (_ & _ & ->).
  cbn [need_dim_copy neg_dims_idx] in Hrun.
  destruct (bool_decide (0 ∈ shape)).
  - injection Hrun as <- <-. auto.
  - destruct (infer_Ok_inv _ _ _ _ _ Hrun)
      as [[_ [= -> ->]]|(k & idx & q & Hidx & _ & _ & [= -> ->])]; [auto|].
    split; [apply length_insert|].
    intros j v Hj Hv1. rewrite list_lookup_insert_ne; [exact Hj|].
    intros <-. destruct (unknown_positions_lookup shape 0 k) as (j & -> & Hk).
    { rewrite Hidx. left. }
    simpl in Hj. unfold unknown_index in Hk. congruence.
Qed.

Lemma output_shape_keeps_entries_witness :
  length [2; 3; 4; 2] = length [2; 3; -1; 2]
  ∧ forall k v, [2; 3; -1; 2] !! k = Some v -> v ≠ -1 -> [2; 3; 4; 2] !! k = Some v.
Proof.
  apply (output_shape_keeps_entries [2; 3; -1; 2] [2; 4; 6] [] false [2; 3; 4; 2]).
  reflexivity.
Defined.

(** X6.  What [output_shape] holds on entry is of no consequence: it is
    resized and overwritten before it is read. *)
Theorem output_buffer_overwritten (shape : list Z) (x_dims : DDim) (out0 : list Z) :
  ValidateShape shape x_dims out0 = ValidateShape shape x_dims [].
Proof. rewrite !ValidateShape_unfold. reflexivity. Qed.

(** X7.  The loop and the enforce on the number of [-1] entries let a shape
    through exactly when every entry is positive, [-1] or a [0] below the
    rank of the input, and at most one entry is [-1]; the loop then has
    recorded whether a [0] occurs and where the [-1] is. *)
Theorem validate_returns_iff (shape : list Z) (x_rank : nat) (st : scan_state) :
  validate shape x_rank = Ok st
  <-> (forall k d, shape !! k = Some d -> accepted x_rank k d)
      ∧ (count_unknown shape ≤ 1)%nat
      ∧ st = {| need_dim_copy := bool_decide (0 ∈ shape);
                neg_dims_idx := unknown_positions 0 shape |}.
Proof.
  split.
  - apply validate_Ok_inv.
  - intros (Hacc & Hcnt & ->). rewrite validate_accepted by exact Hacc.
    rewrite bool_decide_eq_true_2 by exact Hcnt. reflexivity.
Qed.

(** X8.  Whenever a shape with a [-1] at position [pos] resolves statically,
    the divisor was not zero, the extent put at [pos] times the divisor is
    the element count of the input as [int64_t] values, and nothing else of
    the shape was changed. *)
Theorem inferred_dim_passes_enforce (shape : list Z) (x_dims : DDim)
    (out0 out : list Z) (pos : nat) :
  ValidateShape shape x_dims out0 = Ok (false, out) ->
  shape !! pos = Some unknown_index ->
  ∃ q, out = <[pos := q]> shape
       ∧ out !! pos = Some q
       ∧ divisor shape ≠ 0
       ∧ mul64 q (divisor shape) = product x_dims.
Proof.
  rewrite ValidateShape_unfold. intros Hrun Hpos.
  destruct (validate shape (length x_dims)) as [st| |] eqn:Hv; [|discriminate..].
  rewrite result_bind_Ok in Hrun.
  destruct (validate_Ok_inv _ _ _ Hv) as (_ & Hcnt & ->).
  cbn [need_dim_copy neg_dims_idx] in Hrun.
  destruct (bool_decide (0 ∈ shape)); [discriminate|].
  pose proof (lookup_unknown_count shape pos Hpos) as Hone.
  rewrite (unknown_positions_single shape pos ltac:(lia) Hpos) in Hrun.
  destruct (infer_Ok_inv _ _ _ _ _ Hrun)
    as [[[=] _]|(k & idx & q & [= <- <-] & Hdiv & Hmul & [= ->])].
  exists q. split; [reflexivity|]. split.
  - apply list_lookup_insert_eq. eapply lookup_lt_Some. exact Hpos.
  - split; [|exact Hmul].
    intros Hz. unfold div64 in Hdiv. rewrite Hz in Hdiv. discriminate.
Qed.

Lemma inferred_dim_passes_enforce_witness :
  ∃ q, [2; 3; 4; 2] = <[2%nat := q]> [2; 3; -1; 2]
       ∧ [2; 3; 4; 2] !! 2%nat = Some q
       ∧ divisor [2; 3; -1; 2] ≠ 0
       ∧ mul64 q (divisor [2; 3; -1; 2]) = product [2; 4; 6].
Proof.
  apply (inferred_dim_passes_enforce [2; 3; -1; 2] [2; 4; 6] [] [2; 3; 4; 2] 2);
    reflexivity.
Defined.

(** X9.  Conservation of the element count: for a shape with exactly one
    [-1] among positive extents whose product fits an [int], a resolved shape
    is never deferred and the product of its entries is the element count of
    the input. *)
Theorem inferred_shape_conserves_elements (shape : list Z) (x_dims : DDim)
    (out0 : list Z) (b : bool) (out : list Z) :
  (forall d, d ∈ shape -> extent_or_unknown d) ->
  count_unknown shape = 1%nat ->
  spec_capacity shape <= INT_MAX ->
  ValidateShape shape x_dims out0 = Ok (b, out) ->
  b = false ∧ prodZ out = product x_dims.
Proof.
  intros Hl Hcnt Hfit Hrun.
  destruct (count_unknown_one_lookup shape Hcnt) as [pos Hpos].
  rewrite (ValidateShape_infers_in_range shape x_dims out0 pos Hl Hcnt Hpos Hfit)
    in Hrun.
  destruct (Z.eqb_spec (Z.rem (product x_dims) (spec_capacity shape)) 0)
    as [Hrem|]; [|discriminate].
  injection Hrun as <- <-. split; [reflexivity|].
  rewrite (prodZ_insert_unknown shape _ pos Hl Hcnt Hpos).
  pose proof (Z.quot_rem' (product x_dims) (spec_capacity shape)). lia.
Qed.

Lemma inferred_shape_conserves_elements_witness :
  false = false ∧ prodZ [2; 3; 4; 2] = product [2; 4; 6].
Proof.
  apply (inferred_shape_conserves_elements [2; 3; -1; 2] [2; 4; 6] [] false
           [2; 3; 4; 2]).
  - intros d Hd. unfold extent_or_unknown, unknown_index.
    repeat (apply elem_of_cons in Hd as [->|Hd]; [lia|]).
    apply elem_of_nil in Hd. contradiction.
  - reflexivity.
  - vm_compute. discriminate.
  - reflexivity.
Defined.

Lemma scenario_B_shape (d : Z) : d ∈ [2; 3; -1; 2] -> extent_or_unknown d.
Proof.
  intros Hd. unfold extent_or_unknown, unknown_index.
  repeat (apply elem_of_cons in Hd as [->|Hd]; [lia|]).
  apply elem_of_nil in Hd. contradiction.
Qed.

Lemma Resolve_infers_in_range_witness :
  Resolve [2; 3; -1; 2] [2; 4; 6] = Ok (false, [2; 3; 4; 2]).
Proof.
  apply (Resolve_infers_in_range [2; 3; -1; 2] [2; 4; 6] 2).
  - exact scenario_B_shape.
  - reflexivity.
  - reflexivity.
  - vm_compute. discriminate.
Defined.

(** ** Consequences for the caller *)

(** X11.  A resolved shape resolves to itself: for a shape of positive
    extents with at most one [-1], whose positive entries have a product that
    fits an [int], and an input that is not empty, what [Resolve] returns,
    when its entries fit an [int] and it can thus be given as the shape, is
    returned again, verbatim. *)
Theorem resolved_shape_is_fixed_point (shape : list Z) (x_dims : DDim)
    (b : bool) (out : list Z) :
  (forall d, d ∈ shape -> extent_or_unknown d) ->
  (count_unknown shape ≤ 1)%nat ->
  spec_capacity shape <= INT_MAX ->
  0 < product x_dims ->
  Resolve shape x_dims = Ok (b, out) ->
  (forall d, d ∈ out -> in_int d) ->
  Resolve out x_dims = Ok (false, out).
Proof.
  intros Hl Hcnt Hfit Hsize Hrun _.
  pose proof (Resolve_Ok_nonempty _ _ _ Hrun) as Hne.
  rewrite Resolve_nonempty in Hrun by exact Hne.
  assert (length out = length shape ∧ forall d, d ∈ out -> 0 < d) as [Hlen Hout].
  { destruct (decide (count_unknown shape = 1%nat)) as [Hone|Hzero].
    - destruct (count_unknown_one_lookup shape Hone) as [pos Hpos].
      rewrite (ValidateShape_infers_in_range shape x_dims [] pos Hl Hone Hpos Hfit)
        in Hrun.
      destruct (Z.eqb_spec (Z.rem (product x_dims) (spec_capacity shape)) 0)
        as [Hrem|]; [|discriminate].
      injection Hrun as <- <-. split; [apply length_insert|].
      apply insert_all_positive; auto.
      destruct (prodZ_one_unknown shape Hl Hone) as [_ Hcap].
      pose proof (Z.quot_rem' (product x_dims) (spec_capacity shape)). nia.
    - assert (forall d, d ∈ shape -> 0 < d) as Hpos.
      { intros d Hd. destruct (Hl d Hd) as [?|Hu]; [assumption|]. subst d.
        apply list_elem_of_lookup_1 in Hd as [k Hk].
        pose proof (lookup_unknown_count shape k Hk). lia. }
      rewrite <- Resolve_nonempty in Hrun by exact Hne.
      rewrite (Resolve_explicit_verbatim shape x_dims Hne Hpos) in Hrun.
      injection Hrun as <- <-. auto. }
  apply Resolve_explicit_verbatim; [|exact Hout].
  intros ->. destruct shape; [congruence|discriminate].
Qed.

Lemma resolved_shape_is_fixed_point_witness :
  Resolve [2; 3; 4; 2] [2; 4; 6] = Ok (false, [2; 3; 4; 2]).
Proof.
  apply (resolved_shape_is_fixed_point [2; 3; -1; 2] [2; 4; 6] false [2; 3; 4; 2]).
  - exact scenario_B_shape.
  - vm_compute. lia.
  - vm_compute. discriminate.
  - reflexivity.
  - reflexivity.
  - intros d Hd. unfold in_int, INT_MIN, INT_MAX.
    repeat (apply elem_of_cons in Hd as [->|Hd]; [lia|]).
    apply elem_of_nil in Hd. contradiction.
Defined.

(** X12.  The division can only go wrong on an overflow of the 32-bit
    capacity: if [Resolve] ends in an undefined division, the shape has no
    [0], exactly one [-1], positive entries otherwise, and the product of its
    positive entries exceeds [INT_MAX]. *)
Theorem trap_only_on_overflow (shape : list Z) (x_dims : DDim) :
  Resolve shape x_dims = DivisionTrap ->
  (0 ∉ shape)
  ∧ (forall d, d ∈ shape -> extent_or_unknown d)
  ∧ count_unknown shape = 1%nat
  ∧ INT_MAX < spec_capacity shape.
Proof.
  intros Hrun.
  assert (shape ≠ []) as Hne.
  { intros ->. unfold Resolve in Hrun.
    rewrite bool_decide_eq_true_2 in Hrun by reflexivity. discriminate. }
  rewrite Resolve_nonempty in Hrun by exact Hne.
  destruct (inference_failure_path shape x_dims [] (or_introl Hrun))
    as (Hreach & _).
  destruct (division_path_shape _ _ Hreach) as (Hz & Hl & Hcnt).
  repeat split; auto.
  destruct (Z_lt_le_dec INT_MAX (spec_capacity shape)) as [?|Hfit]; [assumption|].
  destruct (count_unknown_one_lookup shape Hcnt) as [pos Hpos].
  rewrite (ValidateShape_infers_in_range shape x_dims [] pos Hl Hcnt Hpos Hfit)
    in Hrun.
  destruct (_ =? _); discriminate.
Qed.

Lemma trap_only_on_overflow_witness :
  (0 ∉ [65536; 65536; -1])
  ∧ (forall d, d ∈ [65536; 65536; -1] -> extent_or_unknown d)
  ∧ count_unknown [65536; 65536; -1] = 1%nat
  ∧ INT_MAX < spec_capacity [65536; 65536; -1].
Proof.
  apply (trap_only_on_overflow [65536; 65536; -1] [65536; 65536; 2]).
  reflexivity.
Defined.

(** X13.  [ShapeMismatchError] is only thrown when a [-1] is inferred: the
    shape then has no [0], exactly one [-1] and positive entries otherwise,
    and, when the product of the positive entries fits an [int], that product
    does not divide the element count of the input. *)
Theorem mismatch_only_when_inferring (shape : list Z) (x_dims : DDim) :
  Resolve shape x_dims = Throw ShapeMismatchError ->
  (0 ∉ shape)
  ∧ (forall d, d ∈ shape -> extent_or_unknown d)
  ∧ count_unknown shape = 1%nat
  ∧ (spec_capacity shape <= INT_MAX ->
     Z.rem (product x_dims) (spec_capacity shape) ≠ 0).
Proof.
  intros Hrun.
  assert (shape ≠ []) as Hne.
  { intros ->. unfold Resolve in Hrun.
    rewrite bool_decide_eq_true_2 in Hrun by reflexivity. discriminate. }
  rewrite Resolve_nonempty in Hrun by exact Hne.
  destruct (inference_failure_path shape x_dims [] (or_intror Hrun))
    as (Hreach & _).
  destruct (division_path_shape _ _ Hreach) as (Hz & Hl & Hcnt).
  repeat split; auto.
  intros Hfit Hrem.
  destruct (count_unknown_one_lookup shape Hcnt) as [pos Hpos].
  rewrite (ValidateShape_infers_in_range shape x_dims [] pos Hl Hcnt Hpos Hfit)
    in Hrun.
  rewrite Hrem in Hrun. discriminate.
Qed.

Lemma mismatch_only_when_inferring_witness :
  (0 ∉ [4; -1])
  ∧ (forall d, d ∈ [4; -1] -> extent_or_unknown d)
  ∧ count_unknown [4; -1] = 1%nat
  ∧ (spec_capacity [4; -1] <= INT_MAX ->
     Z.rem (product [2; 3]) (spec_capacity [4; -1]) ≠ 0).
Proof.
  apply (mismatch_only_when_inferring [4; -1] [2; 3]). reflexivity.
Defined.

(** X14.  An input without elements: for a shape with exactly one [-1] among
    positive extents whose product fits an [int], an element count of zero
    always resolves, and the inferred extent is [0]. *)
Theorem empty_input_infers_zero (shape : list Z) (x_dims : DDim) (pos : nat) :
  (forall d, d ∈ shape -> extent_or_unknown d) ->
  count_unknown shape = 1%nat ->
  shape !! pos = Some unknown_index ->
  spec_capacity shape <= INT_MAX ->
  product x_dims = 0 ->
  Resolve shape x_dims = Ok (false, <[pos := 0]> shape).
Proof.
  intros Hl Hcnt Hpos Hfit Hzero.
  rewrite Resolve_nonempty by (eapply lookup_nonempty; exact Hpos).
  rewrite (ValidateShape_infers_in_range shape x_dims [] pos Hl Hcnt Hpos Hfit).
  rewrite Hzero, Z.rem_0_l, Z.quot_0_l; [reflexivity| |];
    destruct (prodZ_one_unknown shape Hl Hcnt) as [_ Hcap]; lia.
Qed.

Lemma empty_input_infers_zero_witness :
  Resolve [3; -1] [0; 5] = Ok (false, <[1%nat := 0]> [3; -1]).
Proof.
  apply (empty_input_infers_zero [3; -1] [0; 5] 1).
  - intros d Hd. unfold extent_or_unknown, unknown_index.
    repeat (apply elem_of_cons in Hd as [->|Hd]; [lia|]).
    apply elem_of_nil in Hd. contradiction.
  - reflexivity.
  - reflexivity.
  - vm_compute. discriminate.
  - reflexivity.
Defined.

(** X15.  An error of the loop is final: when a shape is rejected for an
    entry below [-1] or for a [0] at or beyond the rank, every shape that
    starts with it is rejected with the same error, whatever follows. *)
Theorem loop_error_is_final (l1 l2 : list Z) (x_dims : DDim) (e : EnforceNotMet) :
  Resolve l1 x_dims = Throw e ->
  e = InvalidDimensionError ∨ e = IndexOutOfRangeError ->
  Resolve (l1 ++ l2) x_dims = Throw e.
Proof.
  intros Hrun Hkind.
  assert (l1 ≠ []) as Hne.
  { intros ->. unfold Resolve in Hrun.
    rewrite bool_decide_eq_true_2 in Hrun by reflexivity.
    injection Hrun as <-. destruct Hkind; discriminate. }
  rewrite Resolve_nonempty in Hrun by exact Hne.
  rewrite Resolve_nonempty by (destruct l1; [congruence|discriminate]).
  rewrite ValidateShape_unfold in *. unfold validate in *.
  rewrite for_loop_app.
  destruct (for_loop (length x_dims) 0 l1 scan_init) as [st|e'|] eqn:Hloop.
  - exfalso. rewrite result_bind_Ok in Hrun. unfold PADDLE_ENFORCE in Hrun.
    case_bool_decide.
    + rewrite !result_bind_Ok in Hrun. destruct (need_dim_copy st); [discriminate|].
      apply infer_Throw_inv in Hrun as [-> _]. destruct Hkind; discriminate.
    + injection Hrun as <-. destruct Hkind; discriminate.
  - exact Hrun.
  - discriminate.
Qed.

Lemma loop_error_is_final_witness :
  Resolve ([2; 3; 2; 0] ++ [-7; -1; -1]) [2; 3; 4] = Throw IndexOutOfRangeError.
Proof.
  apply (loop_error_is_final [2; 3; 2; 0] [-7; -1; -1] [2; 3; 4]).
  - reflexivity.
  - right. reflexivity.
Defined.

(** ** [ReshapeGradOp::InferShape] *)

(** X16.  The backward routine writes the gradient of [X] and nothing else:
    the inputs, the attribute and every other output are as they were. *)
Theorem grad_writes_only_X_grad (g g' : InferShapeContext) :
  ReshapeGradOp.InferShape g = Ok g' ->
  Inputs g' = Inputs g
  ∧ Attr_shape g' = Attr_shape g
  ∧ (forall name : string,
       name ≠ GradVarName "X" -> Outputs g' !! name = Outputs g !! name).
Proof.
  unfold ReshapeGradOp.InferShape. intros Hrun.
  destruct (HasInput g "X"); [|discriminate].
  destruct (HasInput g (GradVarName "Out")); [|discriminate].
  cbn [PADDLE_ENFORCE] in Hrun. rewrite !result_bind_Ok in Hrun.
  injection Hrun as <-.
  unfold SetOutputDim, with_outputs. cbn [Inputs Outputs Attr_shape].
  repeat split. intros name Hne. rewrite lookup_insert_ne by congruence.
  reflexivity.
Qed.

Lemma grad_writes_only_X_grad_witness :
  ∃ g', ReshapeGradOp.InferShape (example_grad_ctx [2; 4; 6] [] [6; 8] [6; 8]) = Ok g'
        ∧ Inputs g' = Inputs (example_grad_ctx [2; 4; 6] [] [6; 8] [6; 8])
        ∧ Attr_shape g' = [6; 8].
Proof.
  destruct (ReshapeGradOp.InferShape (example_grad_ctx [2; 4; 6] [] [6; 8] [6; 8]))
    as [g'| |] eqn:Hrun; [|vm_compute in Hrun; discriminate..].
  exists g'. split; [reflexivity|].
  destruct (grad_writes_only_X_grad _ _ Hrun) as (HI & HA & _).
  split; [exact HI|exact HA].
Defined.
